(** * is-absolute-url: the classifier of [index.js] and its memoization cache

    A shallow embedding of [index.js] and the proofs of its specification.

    - JavaScript strings are sequences of UTF-16 code units: [list N].
    - The module-level [validationCache] is a JavaScript [Map], which
      iterates in insertion order: an association list, oldest entry first.
    - [isAbsoluteUrl] reads and writes the cache and may throw: it is written
      in a state-and-exception monad over the cache.
    - The two regular expression literals are terms of a small regular
      expression syntax, run by a derivative matcher which is proved to
      decide the usual matching relation.
    - The Unicode case tables of the platform ([String.prototype.toLowerCase]
      and the canonicalization of the [i] flag) are not part of the
      repository: their non-ASCII part is a parameter of the development.
    - Both arguments of [isAbsoluteUrl] are JavaScript values: the second
      may be [null], and its [httpOnly] may be any value, which the program
      converts to a string for the cache key and tests for truth. *)

From Stdlib Require Import List NArith Bool String Ascii Lia.
Import ListNotations.

Local Open Scope N_scope.

(** ** JavaScript strings *)

Definition jsstring := list N.

(** The code units of an ASCII literal of the source. *)
Definition lit (s : string) : jsstring :=
  map (fun a => N_of_ascii a) (list_ascii_of_string s).

Fixpoint strict_eq (a b : jsstring) : bool :=
  match a, b with
  | [], [] => true
  | x :: a', y :: b' => (x =? y) && strict_eq a' b'
  | _, _ => false
  end.

Definition js_length (s : jsstring) : N := N.of_nat (List.length s).

(** [s.slice(0, n)] for a non-negative [n]. *)
Definition slice0 (n : nat) (s : jsstring) : jsstring := firstn n s.

Definition is_high_surrogate (u : N) : bool := (55296 <=? u) && (u <=? 56319).
Definition is_low_surrogate (u : N) : bool := (56320 <=? u) && (u <=? 57343).

(** [s.codePointAt(i)]: [None] stands for [undefined]. A high surrogate
    followed by a low surrogate is read as one supplementary code point. *)
Definition codePointAt (s : jsstring) (i : nat) : option N :=
  match nth_error s i with
  | None => None
  | Some first =>
      if is_high_surrogate first then
        match nth_error s (S i) with
        | Some second =>
            if is_low_surrogate second
            then Some ((first - 55296) * 1024 + (second - 56320) + 65536)
            else Some first
        | None => Some first
        end
      else Some first
  end.

(** [x === n], [x >= n] and [x <= n] for [x] a number or [undefined]. *)
Definition is_code (x : option N) (n : N) : bool :=
  match x with Some c => c =? n | None => false end.

Definition ge_code (x : option N) (n : N) : bool :=
  match x with Some c => n <=? c | None => false end.

Definition le_code (x : option N) (n : N) : bool :=
  match x with Some c => c <=? n | None => false end.

Definition ascii_to_lower (u : N) : N :=
  if (65 <=? u) && (u <=? 90) then u + 32 else u.

Definition ascii_to_upper (u : N) : N :=
  if (97 <=? u) && (u <=? 122) then u - 32 else u.

(** ** Regular expressions *)

Inductive regex : Type :=
| Void : regex                              (* matches nothing *)
| Eps : regex                               (* the empty pattern *)
| Chr : N -> regex                          (* a pattern character *)
| Cls : list (N * N) -> regex               (* a class of ranges [lo-hi] *)
| Seq : regex -> regex -> regex
| Alt : regex -> regex -> regex
| Star : regex -> regex.

Definition Opt (r : regex) : regex := Alt r Eps.

Fixpoint in_ranges (u : N) (rs : list (N * N)) : bool :=
  match rs with
  | [] => false
  | (lo, hi) :: rs' => ((lo <=? u) && (u <=? hi)) || in_ranges u rs'
  end.

Fixpoint nullable (r : regex) : bool :=
  match r with
  | Void => false
  | Eps => true
  | Chr _ => false
  | Cls _ => false
  | Seq a b => nullable a && nullable b
  | Alt a b => nullable a || nullable b
  | Star _ => true
  end.

(** A regular expression literal [/^body/flags]. *)
Record RegExp : Type := mkRegExp { body : regex; ignoreCase : bool }.

(** ** Completions *)

(** What a computation may throw: a [TypeError] with its message, or what
    the conversion of an object to a string throws. *)
Inductive exn : Type :=
| TypeError : string -> exn
| Exception : string -> exn.

Inductive completion (A : Type) : Type :=
| Normal : A -> completion A
| Throw : exn -> completion A.

Arguments Normal {A} _.
Arguments Throw {A} _.

(** ** JavaScript values

    A value carries what the program can read of it.
    - A number, and a BigInt, is named by the text that [Number::toString]
      ([BigInt::toString]) gives it, such as [0], [1.5], [NaN] or
      [1e+21]: the program reads a number through that text and through
      its truth value, which the text decides.
    - An object, and a function, is given by its [httpOnly] property
      ([undefined] when it has none) and by the completion of its
      conversion to a string ([[object Object]] for a plain object, the
      string or the exception of a [toString] of its own).
    - A value stands for what one call reads of it: an object whose
      conversion answers differently from one call to the next is another
      value at each. The property is read at line 75 and converted at line
      78, before the call first looks at the cache at line 81; a getter or
      a conversion that itself calls [isAbsoluteUrl] has made those calls,
      which are calls of their own, by then.
    - The built-in prototypes are the language's own: none has an
      [httpOnly]. *)

Inductive value : Type :=
| VUndefined : value
| VNull : value
| VBoolean : bool -> value
| VNumber : jsstring -> value
| VBigInt : jsstring -> value
| VString : jsstring -> value
| VSymbol : value
| VObject : value -> completion jsstring -> value
| VFunction : value -> completion jsstring -> value.

Definition typeof (v : value) : string :=
  match v with
  | VUndefined => "undefined"
  | VNull => "object"
  | VBoolean _ => "boolean"
  | VNumber _ => "number"
  | VBigInt _ => "bigint"
  | VString _ => "string"
  | VSymbol => "symbol"
  | VObject _ _ => "object"
  | VFunction _ _ => "function"
  end%string.

Definition boolean_text (b : bool) : jsstring :=
  lit (if b then "true" else "false").

(** [ToString], as a template literal applies it. A symbol has no string:
    the engine throws a [TypeError] (the wording, here V8's, is its own). *)
Definition ToString (v : value) : completion jsstring :=
  match v with
  | VUndefined => Normal (lit "undefined")
  | VNull => Normal (lit "null")
  | VBoolean b => Normal (boolean_text b)
  | VNumber text => Normal text
  | VBigInt text => Normal text
  | VString s => Normal s
  | VSymbol => Throw (TypeError "Cannot convert a Symbol value to a string")
  | VObject _ text => text
  | VFunction _ text => text
  end.

(** [ToBoolean]: the falsy values are [undefined], [null], [false], the
    numbers [0], [-0] (both of text [0]) and [NaN], the BigInt [0n] and the
    empty string. *)
Definition ToBoolean (v : value) : bool :=
  match v with
  | VUndefined => false
  | VNull => false
  | VBoolean b => b
  | VNumber text => negb (strict_eq text (lit "0") || strict_eq text (lit "NaN"))
  | VBigInt text => negb (strict_eq text (lit "0"))
  | VString s => negb (strict_eq s [])
  | VSymbol => true
  | VObject _ _ => true
  | VFunction _ _ => true
  end.

(** [const {httpOnly = true} = options] with the default [options = {}].
    The parameter default stands in for [undefined] only; destructuring
    [null] throws (the wording, here V8's, is the engine's own); a
    primitive has no [httpOnly]; and the default [true] stands in for a
    property that is absent or [undefined], not for [null]. *)
Definition resolve_httpOnly (options : value) : completion value :=
  match options with
  | VUndefined => Normal (VBoolean true)
  | VNull =>
      Throw (TypeError
               "Cannot destructure property 'httpOnly' of 'options' as it is null.")
  | VObject VUndefined _ | VFunction VUndefined _ => Normal (VBoolean true)
  | VObject httpOnly _ | VFunction httpOnly _ => Normal httpOnly
  | _ => Normal (VBoolean true)
  end.

(** *** Options of the documented shape

    The documented options are [{httpOnly?: boolean}]: [None] for an
    omitted argument, and for a property that is absent. *)
Record Options : Type := mkOptions { httpOnly : option bool }.

(** The value a caller passes for documented options. *)
Definition js_options (options : option Options) : value :=
  match options with
  | None => VUndefined
  | Some o =>
      VObject (match httpOnly o with None => VUndefined | Some b => VBoolean b end)
        (Normal (lit "[object Object]"))
  end.

(** The policy documented options stand for: [httpOnly], [true] when it
    is left out. *)
Definition documented_policy (options : option Options) : bool :=
  match options with
  | None => true
  | Some o => match httpOnly o with None => true | Some b => b end
  end.

(** ** The [Map] holding the cache

    Entries in insertion order, oldest first; keys are strings and values
    booleans, the only values the program stores. *)

Definition Map := list (jsstring * bool).

Definition Map_has (k : jsstring) (m : Map) : bool :=
  existsb (fun e => strict_eq (fst e) k) m.

(** [m.get(k)]: [None] stands for [undefined]. *)
Fixpoint Map_get (k : jsstring) (m : Map) : option bool :=
  match m with
  | [] => None
  | (k', v) :: m' => if strict_eq k' k then Some v else Map_get k m'
  end.

(** [m.set(k, v)]: an existing key keeps its position, a new one is
    appended. *)
Fixpoint Map_set (k : jsstring) (v : bool) (m : Map) : Map :=
  match m with
  | [] => [(k, v)]
  | (k', v') :: m' =>
      if strict_eq k' k then (k', v) :: m' else (k', v') :: Map_set k v m'
  end.

Fixpoint Map_delete (k : jsstring) (m : Map) : Map :=
  match m with
  | [] => []
  | (k', v') :: m' =>
      if strict_eq k' k then m' else (k', v') :: Map_delete k m'
  end.

(** [m.keys().next().value]: the oldest key, [undefined] on an empty map. *)
Definition Map_first_key (m : Map) : option jsstring :=
  match m with
  | [] => None
  | (k, _) :: _ => Some k
  end.

Definition Map_size (m : Map) : N := N.of_nat (List.length m).

(** ** Computations over the cache that may throw *)

Definition M (A : Type) : Type := Map -> completion A * Map.

Definition ret {A : Type} (a : A) : M A := fun cache => (Normal a, cache).

Definition throw {A : Type} (e : exn) : M A := fun cache => (Throw e, cache).

(** A computation that does not touch the cache. *)
Definition evaluate {A : Type} (c : completion A) : M A :=
  fun cache => (c, cache).

Definition bind {A B : Type} (m : M A) (k : A -> M B) : M B :=
  fun cache =>
    match m cache with
    | (Normal a, cache') => k a cache'
    | (Throw e, cache') => (Throw e, cache')
    end.

Notation "x <- m ;; k" := (bind m (fun x => k))
  (at level 61, m at next level, right associativity).
Notation "m ;;; k" := (bind m (fun _ => k))
  (at level 61, right associativity).

Definition cache_has (k : jsstring) : M bool :=
  fun cache => (Normal (Map_has k cache), cache).

Definition cache_get (k : jsstring) : M value :=
  fun cache =>
    (Normal (match Map_get k cache with
             | Some b => VBoolean b
             | None => VUndefined
             end), cache).

Definition cache_set (k : jsstring) (v : bool) : M unit :=
  fun cache => (Normal tt, Map_set k v cache).

(** Deleting [undefined] finds no entry: no key is [undefined]. *)
Definition cache_delete (k : option jsstring) : M unit :=
  fun cache =>
    (Normal tt, match k with Some k' => Map_delete k' cache | None => cache end).

Definition cache_first_key : M (option jsstring) :=
  fun cache => (Normal (Map_first_key cache), cache).

Definition cache_size : M N := fun cache => (Normal (Map_size cache), cache).

Definition CACHE_MAX_SIZE : N := 1000.

Definition evictOldestCacheEntry : M unit :=
  firstKey <- cache_first_key ;;
  cache_delete firstKey.

(** ** The classifier *)

Definition isWindowsPath (url : jsstring) : bool :=
  if js_length url <? 3 then false
  else
    let firstChar := codePointAt url 0 in
    let secondChar := codePointAt url 1 in
    let thirdChar := codePointAt url 2 in
    ((ge_code firstChar 65 && le_code firstChar 90)
     || (ge_code firstChar 97 && le_code firstChar 122))
    && is_code secondChar 58
    && is_code thirdChar 92.

(** [/^[a-zA-Z][a-zA-Z\d+\-.]*?:/]. The star is lazy in the source, which
    changes the match found and not whether there is one. *)
Definition ABSOLUTE_URL_REGEX : RegExp :=
  {| body :=
       Seq (Cls [(97, 122); (65, 90)])
         (Seq (Star (Cls [(97, 122); (65, 90); (48, 57);
                          (43, 43); (45, 45); (46, 46)]))
            (Chr 58));
     ignoreCase := false |}.

(** [/^https?:/i] *)
Definition HTTP_PROTOCOLS_REGEX : RegExp :=
  {| body :=
       Seq (Chr 104) (Seq (Chr 116) (Seq (Chr 116) (Seq (Chr 112)
         (Seq (Opt (Chr 115)) (Chr 58)))));
     ignoreCase := true |}.

(** A case table that maps every non-ASCII code unit to itself: the one of a
    platform without Unicode case conversion, used to run the model. *)
Definition lower_identity (before : list N) (u : N) (after : list N) : list N :=
  [u].

Definition upper_identity (u : N) : N := u.

(** The cache without its oldest entry when it is full, as before a store. *)
Definition make_room (cache : Map) : Map :=
  if CACHE_MAX_SIZE <=? Map_size cache then tl cache else cache.

(** Calls on [n] one-unit strings that differ, from code unit [start] on. *)
Definition distinct_urls (start n : nat) : list (jsstring * option Options) :=
  map (fun i => ([N.of_nat i], None)) (seq start n).

Fixpoint distinct_keys (keys : list jsstring) : bool :=
  match keys with
  | [] => true
  | k :: keys' =>
      negb (existsb (fun k' => strict_eq k' k) keys') && distinct_keys keys'
  end.

Section Unicode.

(** The lower-case mapping of a non-ASCII code unit, given the code units
    before it (nearest first) and after it: the default case conversion of
    Unicode depends on the context (final sigma), and the two surrogates of
    a supplementary character map to those of its lower case. *)
Variable lowerNonAscii : list N -> N -> list N -> list N.

(** The upper-case mapping of a non-ASCII code unit when it is one code
    unit long, the code unit itself otherwise. *)
Variable upperNonAscii : N -> N.

Fixpoint toLowerCase_from (before s : jsstring) : jsstring :=
  match s with
  | [] => []
  | u :: after =>
      (if u <? 128 then [ascii_to_lower u] else lowerNonAscii before u after)
        ++ toLowerCase_from (u :: before) after
  end.

Definition toLowerCase (s : jsstring) : jsstring := toLowerCase_from [] s.

(** [Canonicalize] of a regular expression without the [u] flag: the upper
    case of the code unit, unless that maps a non-ASCII unit into ASCII. *)
Definition canonicalize (ch : N) : N :=
  if ch <? 128 then ascii_to_upper ch
  else let cu := upperNonAscii ch in if cu <? 128 then ch else cu.

Definition chr_matches (icase : bool) (c u : N) : bool :=
  if icase then canonicalize u =? canonicalize c else u =? c.

(** Matching of a class under the [i] flag compares canonicalized units;
    the classes of this program only occur without the flag. *)
Fixpoint deriv (icase : bool) (u : N) (r : regex) : regex :=
  match r with
  | Void => Void
  | Eps => Void
  | Chr c => if chr_matches icase c u then Eps else Void
  | Cls rs => if in_ranges u rs then Eps else Void
  | Seq a b =>
      if nullable a
      then Alt (Seq (deriv icase u a) b) (deriv icase u b)
      else Seq (deriv icase u a) b
  | Alt a b => Alt (deriv icase u a) (deriv icase u b)
  | Star a => Seq (deriv icase u a) (Star a)
  end.

(** A pattern anchored by [^]: does it match a prefix of the input? *)
Fixpoint match_prefix (icase : bool) (r : regex) (s : jsstring) : bool :=
  nullable r ||
  match s with
  | [] => false
  | u :: s' => match_prefix icase (deriv icase u r) s'
  end.

Definition RegExp_test (re : RegExp) (s : jsstring) : bool :=
  match_prefix (ignoreCase re) (body re) s.

(** Fast path check for common protocols. *)
Definition hasCommonHttpProtocol (url : jsstring) : bool :=
  let char1 := codePointAt url 0 in
  let char2 := codePointAt url 1 in
  let char3 := codePointAt url 2 in
  let char4 := codePointAt url 3 in
  let char5 := codePointAt url 4 in
  if is_code char1 104 && is_code char2 116 && is_code char3 116
     && is_code char4 112 && is_code char5 58 then true
  else if is_code char1 72 && is_code char2 84 && is_code char3 84
          && is_code char4 80 && is_code char5 58 then true
  else
    let char6 := codePointAt url 5 in
    if is_code char1 104 && is_code char2 116 && is_code char3 116
       && is_code char4 112 && is_code char5 115 && is_code char6 58 then true
    else if is_code char1 72 && is_code char2 84 && is_code char3 84
            && is_code char4 80 && is_code char5 83 && is_code char6 58
    then true
    else
      let firstSix := toLowerCase (slice0 6 url) in
      strict_eq firstSix (lit "http:") || strict_eq firstSix (lit "https:").

(** [`${url}|${httpOnly}`], given the string [httpOnly] converts to. *)
Definition cacheKey (url : jsstring) (httpOnly : jsstring) : jsstring :=
  url ++ lit "|" ++ httpOnly.

(** The lines that store a result and return it, which the source repeats
    in each of its three branches (lines 91-97, 104-110 and 119-126). *)
Definition cache_and_return (key : jsstring) (result : bool) : M value :=
  size <- cache_size ;;
  (if CACHE_MAX_SIZE <=? size then evictOldestCacheEntry else ret tt) ;;;
  cache_set key result ;;;
  ret (VBoolean result).

Definition isAbsoluteUrl (url : value) (options : value) : M value :=
  match url with
  | VString url =>
      httpOnly <- evaluate (resolve_httpOnly options) ;;
      httpOnly_text <- evaluate (ToString httpOnly) ;;
      let cacheKey := cacheKey url httpOnly_text in
      hit <- cache_has cacheKey ;;
      if hit then cache_get cacheKey
      else if isWindowsPath url then
        cache_and_return cacheKey false
      else if ToBoolean httpOnly && (5 <=? js_length url)
              && hasCommonHttpProtocol url
      then
        cache_and_return cacheKey true
      else
        let result :=
          if RegExp_test ABSOLUTE_URL_REGEX url
          then (if ToBoolean httpOnly
                then RegExp_test HTTP_PROTOCOLS_REGEX url else true)
          else false in
        cache_and_return cacheKey result
  | _ =>
      throw (TypeError ("Expected a `string`, got `" ++ typeof url ++ "`"))
  end.

(** A call as the caller sees it: the completion, and the cache it leaves. *)
Definition call_result (url : value) (options : value) (cache : Map)
  : completion value :=
  fst (isAbsoluteUrl url options cache).

Definition call_cache (url : value) (options : value) (cache : Map)
  : Map :=
  snd (isAbsoluteUrl url options cache).

(** The cache after a sequence of calls, whatever they returned or threw. *)
Fixpoint run_calls (calls : list (value * value)) (cache : Map) : Map :=
  match calls with
  | [] => cache
  | (url, options) :: calls' => run_calls calls' (call_cache url options cache)
  end.

(** The caches the program can be in: the module starts with an empty map,
    and only [isAbsoluteUrl] touches it, called with any two values. *)
Inductive reachable : Map -> Prop :=
| reachable_init : reachable []
| reachable_call : forall url options cache,
    reachable cache -> reachable (call_cache url options cache).

(** The caches the program is in when every call so far was made with
    options of the documented shape (and any first argument). *)
Inductive reachable_documented : Map -> Prop :=
| documented_init : reachable_documented []
| documented_call : forall url (options : option Options) cache,
    reachable_documented cache ->
    reachable_documented (call_cache url (js_options options) cache).

(** Calls with documented options, as the values they pass. *)
Definition documented_calls (calls : list (value * option Options))
  : list (value * value) :=
  map (fun c => (fst c, js_options (snd c))) calls.

(** The boolean a cache miss computes (the three branches that set
    [result]), apart from the cache. *)
Definition classify (url : jsstring) (httpOnly : bool) : bool :=
  if isWindowsPath url then false
  else if httpOnly && (5 <=? js_length url) && hasCommonHttpProtocol url
  then true
  else if RegExp_test ABSOLUTE_URL_REGEX url
  then (if httpOnly then RegExp_test HTTP_PROTOCOLS_REGEX url else true)
  else false.

(** The reference route of the specification's evaluation order: its steps
    1 to 3 and 5 to 7, that is, [isAbsoluteUrl] without the shortcut for the
    common HTTP(S) prefixes (step 4). *)
Definition isAbsoluteUrl_reference (url : value) (options : value)
  : M value :=
  match url with
  | VString url =>
      httpOnly <- evaluate (resolve_httpOnly options) ;;
      httpOnly_text <- evaluate (ToString httpOnly) ;;
      let cacheKey := cacheKey url httpOnly_text in
      hit <- cache_has cacheKey ;;
      if hit then cache_get cacheKey
      else if isWindowsPath url then
        cache_and_return cacheKey false
      else
        let result :=
          if RegExp_test ABSOLUTE_URL_REGEX url
          then (if ToBoolean httpOnly
                then RegExp_test HTTP_PROTOCOLS_REGEX url else true)
          else false in
        cache_and_return cacheKey result
  | _ =>
      throw (TypeError ("Expected a `string`, got `" ++ typeof url ++ "`"))
  end.

(** *** The words of the specification *)

(** The strings a pattern matches in full. *)
Inductive matches (icase : bool) : regex -> jsstring -> Prop :=
| matches_eps : matches icase Eps []
| matches_chr : forall c u,
    chr_matches icase c u = true -> matches icase (Chr c) [u]
| matches_cls : forall rs u,
    in_ranges u rs = true -> matches icase (Cls rs) [u]
| matches_seq : forall a b w1 w2,
    matches icase a w1 -> matches icase b w2 ->
    matches icase (Seq a b) (w1 ++ w2)
| matches_alt_l : forall a b w,
    matches icase a w -> matches icase (Alt a b) w
| matches_alt_r : forall a b w,
    matches icase b w -> matches icase (Alt a b) w
| matches_star_nil : forall a, matches icase (Star a) []
| matches_star_cons : forall a w1 w2,
    matches icase a w1 -> matches icase (Star a) w2 ->
    matches icase (Star a) (w1 ++ w2).

Definition is_letter (u : N) : bool :=
  ((65 <=? u) && (u <=? 90)) || ((97 <=? u) && (u <=? 122)).

Definition is_digit (u : N) : bool := (48 <=? u) && (u <=? 57).

Definition is_scheme_char (u : N) : bool :=
  is_letter u || is_digit u || (u =? 43) || (u =? 45) || (u =? 46).

(** The scheme-prefix rule: a letter, then letters, digits, [+], [-] or
    [.], then a colon, at the start of the string. *)
Definition scheme_prefix (s : jsstring) : Prop :=
  exists l rest tail,
    s = l :: rest ++ 58 :: tail
    /\ is_letter l = true
    /\ forallb is_scheme_char rest = true.

(** The scheme token: the text before the first colon. *)
Fixpoint scheme_token (s : jsstring) : jsstring :=
  match s with
  | [] => []
  | u :: s' => if u =? 58 then [] else u :: scheme_token s'
  end.

Definition eq_ignore_case (a b : jsstring) : bool :=
  strict_eq (map ascii_to_lower a) (map ascii_to_lower b).

Definition is_http_scheme (token : jsstring) : bool :=
  eq_ignore_case token (lit "http") || eq_ignore_case token (lit "https").

(** The leading characters are [http:] or [https:], in any casing. *)
Definition http_prefix (s : jsstring) : bool :=
  eq_ignore_case (firstn 5 s) (lit "http:")
  || eq_ignore_case (firstn 6 s) (lit "https:").

(** [http_prefix], spelled out on the code units. *)
Definition http_shape (s : jsstring) : Prop :=
  exists a b c d rest,
    s = a :: b :: c :: d :: rest
    /\ ascii_to_lower a = 104 /\ ascii_to_lower b = 116
    /\ ascii_to_lower c = 116 /\ ascii_to_lower d = 112
    /\ ((exists t, rest = 58 :: t)
        \/ (exists e t, rest = e :: 58 :: t /\ ascii_to_lower e = 115)).

(** The platform-path pattern: a letter, a colon and a backslash. *)
Definition windows_path_prefix (s : jsstring) : Prop :=
  exists l rest, s = l :: 58 :: 92 :: rest /\ is_letter l = true.

(** What a call on a string reads of its options before it looks at the
    cache: the text that ends the key, and whether [httpOnly] is truthy. *)
Definition read_options (options : value) : completion (jsstring * bool) :=
  match resolve_httpOnly options with
  | Throw e => Throw e
  | Normal httpOnly =>
      match ToString httpOnly with
      | Throw e => Throw e
      | Normal text => Normal (text, ToBoolean httpOnly)
      end
  end.

(** Documented options with an explicit [httpOnly]. *)
Definition with_httpOnly (h : bool) : option Options :=
  Some {| httpOnly := Some h |}.

(** The object literal [{httpOnly: v}], for any value [v]. *)
Definition object_with (v : value) : value :=
  VObject v (Normal (lit "[object Object]")).

(** A call with these options, on any string and the empty cache, stores its
    result under the key that ends in [text], classifying under the policy
    [policy]. *)
Definition reads_as (options : value) (text : jsstring) (policy : bool)
  : Prop :=
  forall s,
    isAbsoluteUrl (VString s) options []
    = (Normal (VBoolean (classify s policy)),
       [(s ++ lit "|" ++ text, classify s policy)]).

(** The key of a call on [url] with documented options. *)
Definition documented_key (url : jsstring) (options : option Options)
  : jsstring :=
  cacheKey url (boolean_text (documented_policy options)).

(** The entry a miss on [url] with documented options stores. *)
Definition entry_of (url : jsstring) (options : option Options)
  : jsstring * bool :=
  (documented_key url options, classify url (documented_policy options)).

(** Calls on strings with documented options, as the values they pass. *)
Definition string_calls (l : list (jsstring * option Options))
  : list (value * value) :=
  map (fun c => (VString (fst c), js_options (snd c))) l.

Definition call_key (c : jsstring * option Options) : jsstring :=
  documented_key (fst c) (snd c).

(** Every entry under the key of a string and a boolean policy is the
    classification of that string under that policy. *)
Definition coherent (cache : Map) : Prop :=
  forall k b, In (k, b) cache ->
    exists url h, k = cacheKey url (boolean_text h) /\ b = classify url h.

(** Every entry is the one that some call on a string stores on the empty
    cache. *)
Definition stored_by_a_call (cache : Map) : Prop :=
  forall k b, In (k, b) cache ->
    exists s options,
      isAbsoluteUrl (VString s) options [] = (Normal (VBoolean b), [(k, b)]).

(** What the development assumes of the platform's lower-case table: the
    mapping of a non-ASCII code unit is not empty and does not begin with
    one of the code units of [https:]. (The only ASCII code units that
    Unicode's lower-case mappings of non-ASCII characters produce are [i]
    and [k].) *)
Definition lower_case_table_ok : Prop :=
  forall before u after, 128 <= u ->
    exists d rest,
      lowerNonAscii before u after = d :: rest /\ ~ In d (lit "https:").

(** ** Proof steps that recur *)

(** Case analysis on every comparison of code units in the goal. *)
Ltac split_comparisons :=
  repeat match goal with
         | |- context [?a <=? ?b] => destruct (N.leb_spec a b); simpl
         | |- context [?a <? ?b] => destruct (N.ltb_spec a b); simpl
         | |- context [?a =? ?b] => destruct (N.eqb_spec a b); simpl
         end.

(** A boolean hypothesis as the conjunctions, disjunctions and equations
    it stands for. *)
Ltac bool_facts H :=
  repeat first [ rewrite orb_true_iff in H
               | rewrite andb_true_iff in H
               | rewrite N.eqb_eq in H ].

(** ** Strings and the map *)

Lemma strict_eq_eq (a b : jsstring) : strict_eq a b = true <-> a = b.
Proof.
  revert b; induction a as [|x a IH]; intros [|y b]; simpl;
    try (split; [discriminate | discriminate]); try tauto.
  rewrite andb_true_iff, N.eqb_eq, IH.
  split; [intros [-> ->]; reflexivity | intros E; inversion E; auto].
Qed.

Lemma strict_eq_refl (a : jsstring) : strict_eq a a = true.
Proof. apply strict_eq_eq; reflexivity. Qed.

Lemma strict_eq_neq (a b : jsstring) : strict_eq a b = false <-> a <> b.
Proof.
  rewrite <- strict_eq_eq. destruct (strict_eq a b); split; congruence.
Qed.

Lemma Map_has_get (k : jsstring) (m : Map) :
  Map_has k m = match Map_get k m with Some _ => true | None => false end.
Proof.
  induction m as [|[k' v] m IH]; simpl; [reflexivity|].
  destruct (strict_eq k' k); simpl; auto.
Qed.

Lemma Map_get_In (k : jsstring) (m : Map) (b : bool) :
  Map_get k m = Some b -> In (k, b) m.
Proof.
  induction m as [|[k' v] m IH]; simpl; [discriminate|].
  destruct (strict_eq k' k) eqn:E.
  - apply strict_eq_eq in E. intros [= ->]. left; congruence.
  - auto.
Qed.

Lemma Map_has_keys (k : jsstring) (m : Map) :
  Map_has k m = true <-> In k (map fst m).
Proof.
  unfold Map_has. rewrite existsb_exists, in_map_iff. split.
  - intros [e [He E]]. apply strict_eq_eq in E. eauto.
  - intros [e [E He]]. exists e. split; [assumption|].
    apply strict_eq_eq; assumption.
Qed.

Lemma Map_set_fresh (k : jsstring) (v : bool) (m : Map) :
  Map_has k m = false -> Map_set k v m = m ++ [(k, v)].
Proof.
  induction m as [|[k' v'] m IH]; simpl; [reflexivity|].
  destruct (strict_eq k' k); simpl; [discriminate|].
  intros H. rewrite IH by assumption. reflexivity.
Qed.

Lemma Map_has_tl (k : jsstring) (m : Map) :
  Map_has k m = false -> Map_has k (tl m) = false.
Proof.
  destruct m as [|e m]; simpl; [auto|].
  intros H. apply orb_false_iff in H. tauto.
Qed.

Lemma Map_size_app (m1 m2 : Map) :
  Map_size (m1 ++ m2) = Map_size m1 + Map_size m2.
Proof. unfold Map_size. rewrite length_app. lia. Qed.

Lemma Map_size_tl (m : Map) : Map_size (tl m) = N.pred (Map_size m).
Proof. unfold Map_size. destruct m; simpl; lia. Qed.

Lemma Map_has_make_room (k : jsstring) (m : Map) :
  Map_has k m = false -> Map_has k (make_room m) = false.
Proof.
  unfold make_room. destruct (CACHE_MAX_SIZE <=? Map_size m); [|auto].
  apply Map_has_tl.
Qed.

Lemma evictOldestCacheEntry_tl (cache : Map) :
  evictOldestCacheEntry cache = (Normal tt, tl cache).
Proof.
  destruct cache as [|[k v] m]; [reflexivity|].
  unfold evictOldestCacheEntry, bind, cache_first_key, cache_delete; simpl.
  rewrite strict_eq_refl. reflexivity.
Qed.

(** The key pairs the string with the policy without confusion. *)
Lemma cacheKey_inj (s1 s2 : jsstring) (h1 h2 : bool) :
  cacheKey s1 (boolean_text h1) = cacheKey s2 (boolean_text h2) ->
  s1 = s2 /\ h1 = h2.
Proof.
  unfold cacheKey, boolean_text. intros E.
  apply (f_equal (@rev N)) in E. rewrite !rev_app_distr in E.
  destruct h1, h2; simpl in E; try discriminate E;
    injection E as E; apply (f_equal (@rev N)) in E;
    rewrite !rev_involutive in E; auto.
Qed.

(** ** The ways through a call *)

Lemma cache_and_return_store (key : jsstring) (result : bool) (cache : Map) :
  Map_has key cache = false ->
  cache_and_return key result cache =
  (Normal (VBoolean result), make_room cache ++ [(key, result)]).
Proof.
  intros Hmiss.
  unfold cache_and_return, bind, cache_size, cache_set, ret, make_room.
  destruct (CACHE_MAX_SIZE <=? Map_size cache) eqn:Hfull.
  - rewrite evictOldestCacheEntry_tl.
    rewrite Map_set_fresh by (apply Map_has_tl; assumption). reflexivity.
  - rewrite Map_set_fresh by assumption. reflexivity.
Qed.

Lemma isAbsoluteUrl_not_string (url : value) (options : value)
    (cache : Map) :
  typeof url <> "string"%string ->
  isAbsoluteUrl url options cache =
  (Throw (TypeError ("Expected a `string`, got `" ++ typeof url ++ "`")),
   cache).
Proof.
  destruct url; simpl; intros H; try reflexivity. congruence.
Qed.

(** A call on a string whose options cannot be read throws before it looks
    at the cache. *)
Lemma isAbsoluteUrl_unreadable (url : jsstring) (options : value)
    (cache : Map) (e : exn) :
  read_options options = Throw e ->
  isAbsoluteUrl (VString url) options cache = (Throw e, cache).
Proof.
  unfold read_options, isAbsoluteUrl, bind, evaluate.
  destruct (resolve_httpOnly options) as [v|e']; [|intros [= ->]; reflexivity].
  destruct (ToString v) as [text|e']; [discriminate|].
  intros [= ->]. reflexivity.
Qed.

Lemma isAbsoluteUrl_read_hit (url : jsstring) (options : value)
    (cache : Map) (text : jsstring) (h b : bool) :
  read_options options = Normal (text, h) ->
  Map_get (cacheKey url text) cache = Some b ->
  isAbsoluteUrl (VString url) options cache = (Normal (VBoolean b), cache).
Proof.
  unfold read_options, isAbsoluteUrl, bind, evaluate.
  destruct (resolve_httpOnly options) as [v|e']; [|discriminate].
  destruct (ToString v) as [text'|e']; [|discriminate].
  intros [= -> <-] Hget. unfold cache_has.
  rewrite Map_has_get, Hget. unfold cache_get. rewrite Hget. reflexivity.
Qed.

Lemma isAbsoluteUrl_read_miss (url : jsstring) (options : value)
    (cache : Map) (text : jsstring) (h : bool) :
  read_options options = Normal (text, h) ->
  Map_has (cacheKey url text) cache = false ->
  isAbsoluteUrl (VString url) options cache =
  (Normal (VBoolean (classify url h)),
   make_room cache ++ [(cacheKey url text, classify url h)]).
Proof.
  unfold read_options, isAbsoluteUrl, bind, evaluate.
  destruct (resolve_httpOnly options) as [v|e']; [|discriminate].
  destruct (ToString v) as [text'|e']; [|discriminate].
  intros [= -> <-] Hmiss. unfold cache_has, classify.
  rewrite Hmiss.
  destruct (isWindowsPath url).
  - apply cache_and_return_store; assumption.
  - destruct (ToBoolean v && (5 <=? js_length url)
              && hasCommonHttpProtocol url).
    + apply cache_and_return_store; assumption.
    + apply cache_and_return_store; assumption.
Qed.

(** Documented options are read without a throw, as their policy. *)
Lemma read_documented (options : option Options) :
  read_options (js_options options)
  = Normal (boolean_text (documented_policy options),
            documented_policy options).
Proof. destruct options as [[[b|]]|]; reflexivity. Qed.

Lemma isAbsoluteUrl_hit (url : jsstring) (options : option Options)
    (cache : Map) (b : bool) :
  Map_get (documented_key url options) cache = Some b ->
  isAbsoluteUrl (VString url) (js_options options) cache
  = (Normal (VBoolean b), cache).
Proof.
  intros Hget.
  apply (isAbsoluteUrl_read_hit _ _ _ _ _ _ (read_documented options) Hget).
Qed.

Lemma isAbsoluteUrl_miss (url : jsstring) (options : option Options)
    (cache : Map) :
  Map_has (documented_key url options) cache = false ->
  isAbsoluteUrl (VString url) (js_options options) cache =
  (Normal (VBoolean (classify url (documented_policy options))),
   make_room cache ++ [entry_of url options]).
Proof.
  intros Hmiss.
  apply (isAbsoluteUrl_read_miss _ _ _ _ _ (read_documented options) Hmiss).
Qed.

Lemma string_call_returns (url : jsstring) (options : option Options)
    (cache : Map) :
  exists b,
    call_result (VString url) (js_options options) cache
    = Normal (VBoolean b).
Proof.
  unfold call_result.
  destruct (Map_get (documented_key url options) cache) as [b|] eqn:Hget.
  - exists b. rewrite (isAbsoluteUrl_hit _ _ _ _ Hget). reflexivity.
  - eexists. rewrite isAbsoluteUrl_miss; [reflexivity|].
    rewrite Map_has_get, Hget. reflexivity.
Qed.

(** Every call goes one of three ways: it throws and leaves the cache, or
    it is a call on a string that hits, or one that misses. *)
Lemma call_cases (url : value) (options : value) (cache : Map) :
  (exists e, isAbsoluteUrl url options cache = (Throw e, cache))
  \/ (exists s text h,
        url = VString s /\ read_options options = Normal (text, h)
        /\ ((exists b, Map_get (cacheKey s text) cache = Some b
                       /\ isAbsoluteUrl url options cache
                          = (Normal (VBoolean b), cache))
            \/ (Map_has (cacheKey s text) cache = false
                /\ isAbsoluteUrl url options cache
                   = (Normal (VBoolean (classify s h)),
                      make_room cache ++ [(cacheKey s text, classify s h)])))).
Proof.
  destruct url as [| | |t|t|s| |h t|h t];
    try (left; eexists; apply isAbsoluteUrl_not_string; simpl; discriminate).
  destruct (read_options options) as [[text h]|e] eqn:Hread.
  - right. exists s, text, h. repeat split; try assumption.
    destruct (Map_get (cacheKey s text) cache) as [b|] eqn:Hget.
    + left. exists b. split; [reflexivity|].
      apply (isAbsoluteUrl_read_hit _ _ _ _ _ _ Hread Hget).
    + right.
      assert (Hmiss : Map_has (cacheKey s text) cache = false)
        by (rewrite Map_has_get, Hget; reflexivity).
      split; [assumption|].
      apply (isAbsoluteUrl_read_miss _ _ _ _ _ Hread Hmiss).
  - left. exists e. apply isAbsoluteUrl_unreadable; assumption.
Qed.

(** ** The invariant of the cache *)

Lemma In_make_room (e : jsstring * bool) (cache : Map) :
  In e (make_room cache) -> In e cache.
Proof.
  unfold make_room. destruct (CACHE_MAX_SIZE <=? Map_size cache); [|auto].
  destruct cache; simpl; auto.
Qed.

Lemma coherent_call (url : value) (options : option Options) (cache : Map) :
  coherent cache -> coherent (call_cache url (js_options options) cache).
Proof.
  intros Hc. unfold call_cache.
  destruct (call_cases url (js_options options) cache)
    as [[e ->]|[s [text [h [-> [Hread [[b [_ ->]]|[_ ->]]]]]]]];
    try exact Hc.
  rewrite read_documented in Hread. injection Hread as <- <-.
  simpl. intros k b Hin. apply in_app_or in Hin as [Hin|[Hin|[]]].
  - apply Hc. apply In_make_room; assumption.
  - inversion Hin; subst. eauto.
Qed.

Lemma reachable_coherent (cache : Map) :
  reachable_documented cache -> coherent cache.
Proof.
  induction 1 as [|url options cache _ IH].
  - intros k b [].
  - apply coherent_call; assumption.
Qed.

Lemma stored_by_a_call_step (url options : value) (cache : Map) :
  stored_by_a_call cache -> stored_by_a_call (call_cache url options cache).
Proof.
  intros Hc. unfold call_cache.
  destruct (call_cases url options cache)
    as [[e ->]|[s [text [h [_ [Hread [[b [_ ->]]|[_ ->]]]]]]]];
    try exact Hc.
  simpl. intros k b Hin. apply in_app_or in Hin as [Hin|[Hin|[]]].
  - apply Hc. apply In_make_room; assumption.
  - inversion Hin; subst. exists s, options.
    rewrite (isAbsoluteUrl_read_miss _ _ [] _ _ Hread) by reflexivity.
    reflexivity.
Qed.

Lemma reachable_stored (cache : Map) :
  reachable cache -> stored_by_a_call cache.
Proof.
  induction 1 as [|url options cache _ IH].
  - intros k b [].
  - apply stored_by_a_call_step; assumption.
Qed.

(** An entry of such a cache holds the classification of a string, under
    the policy some options read as, and its key was written from that
    string and the text of those options. *)
Lemma stored_entry (cache : Map) (k : jsstring) (b : bool) :
  stored_by_a_call cache ->
  In (k, b) cache ->
  exists url options text h,
    read_options options = Normal (text, h)
    /\ k = cacheKey url text
    /\ b = classify url h.
Proof.
  intros Hc Hin. destruct (Hc k b Hin) as [s [options E]].
  destruct (call_cases (VString s) options [])
    as [[e E']|[s' [text [h [Hs [Hread [[b' [Hget _]]|[_ E']]]]]]]].
  - rewrite E in E'. discriminate.
  - discriminate.
  - rewrite E in E'. injection E' as Hb Hk _.
    exists s', options, text, h. auto.
Qed.

Lemma reachable_documented_reachable (cache : Map) :
  reachable_documented cache -> reachable cache.
Proof. induction 1; constructor; assumption. Qed.

Lemma run_calls_reachable (calls : list (value * value)) (cache : Map) :
  reachable cache -> reachable (run_calls calls cache).
Proof.
  revert cache. induction calls as [|[url options] calls IH]; simpl; intros.
  - assumption.
  - apply IH. constructor; assumption.
Qed.

Lemma run_calls_documented (calls : list (value * option Options))
    (cache : Map) :
  reachable_documented cache ->
  reachable_documented (run_calls (documented_calls calls) cache).
Proof.
  revert cache. induction calls as [|[url options] calls IH]; simpl; intros.
  - assumption.
  - apply IH. constructor; assumption.
Qed.

Lemma run_calls_app (l1 l2 : list (value * value)) (cache : Map) :
  run_calls (l1 ++ l2) cache = run_calls l2 (run_calls l1 cache).
Proof.
  revert cache. induction l1 as [|[url options] l1 IH]; simpl; auto.
Qed.

(** In a coherent cache, and so in every cache the program reaches through
    calls with documented options, a call on a string with documented
    options returns the classification of the string. *)
Lemma coherent_result (url : jsstring) (options : option Options)
    (cache : Map) :
  coherent cache ->
  call_result (VString url) (js_options options) cache =
  Normal (VBoolean (classify url (documented_policy options))).
Proof.
  intros Hc. unfold call_result.
  destruct (Map_get (documented_key url options) cache) as [b|] eqn:Hget.
  - rewrite (isAbsoluteUrl_hit _ _ _ _ Hget). simpl.
    apply Map_get_In in Hget. destruct (Hc _ _ Hget) as [url' [h [Hk Hb]]].
    apply cacheKey_inj in Hk as [<- <-]. rewrite Hb. reflexivity.
  - rewrite isAbsoluteUrl_miss by (rewrite Map_has_get, Hget; reflexivity).
    reflexivity.
Qed.

Lemma reachable_result (url : jsstring) (options : option Options)
    (cache : Map) :
  reachable_documented cache ->
  call_result (VString url) (js_options options) cache =
  Normal (VBoolean (classify url (documented_policy options))).
Proof. intros H. apply coherent_result, reachable_coherent, H. Qed.

(** ** The matcher decides the matching relation *)

Lemma nullable_matches (icase : bool) (r : regex) :
  nullable r = true <-> matches icase r [].
Proof.
  split.
  - induction r; simpl; intros H; try discriminate.
    + constructor.
    + apply andb_true_iff in H as [H1 H2].
      change (@nil N) with (@nil N ++ []). constructor; auto.
    + apply orb_true_iff in H as [H|H];
        [apply matches_alt_l | apply matches_alt_r]; auto.
    + constructor.
  - intros H. remember (@nil N) as w eqn:Ew.
    induction H; simpl; try discriminate; try reflexivity.
    + apply app_eq_nil in Ew as [-> ->]. rewrite IHmatches1, IHmatches2; auto.
    + rewrite IHmatches; auto.
    + rewrite IHmatches; auto using orb_true_r.
Qed.

Lemma matches_star_cons_inv (icase : bool) (a : regex) (u : N) (w : jsstring) :
  matches icase (Star a) (u :: w) ->
  exists w1 w2,
    w = w1 ++ w2 /\ matches icase a (u :: w1) /\ matches icase (Star a) w2.
Proof.
  intros H. remember (Star a) as r eqn:Er. remember (u :: w) as s eqn:Es.
  induction H; try discriminate.
  injection Er as ->.
  destruct w1 as [|u1 w1]; simpl in Es.
  - apply IHmatches2; auto.
  - injection Es as -> <-. eauto.
Qed.

Lemma matches_seq_cons_inv (icase : bool) (a b : regex) (u : N)
    (w : jsstring) :
  matches icase (Seq a b) (u :: w) ->
  (matches icase a [] /\ matches icase b (u :: w))
  \/ exists w1 w2,
       w = w1 ++ w2 /\ matches icase a (u :: w1) /\ matches icase b w2.
Proof.
  intros H. inversion H as [| | |a' b' w1 w2 Ha Hb [Ea Eb] Ew| | | |].
  destruct w1 as [|u1 w1]; simpl in Ew.
  - left. subst w2. auto.
  - right. injection Ew as -> <-. eauto.
Qed.

Lemma matches_seq_cons (icase : bool) (a b : regex) (u : N)
    (w1 w2 : jsstring) :
  matches icase a (u :: w1) -> matches icase b w2 ->
  matches icase (Seq a b) (u :: w1 ++ w2).
Proof.
  intros Ha Hb. change (u :: w1 ++ w2) with ((u :: w1) ++ w2).
  constructor; assumption.
Qed.

Lemma deriv_matches (icase : bool) (u : N) (r : regex) (w : jsstring) :
  matches icase (deriv icase u r) w <-> matches icase r (u :: w).
Proof.
  revert w. induction r as [| |c|rs|a IHa b IHb|a IHa b IHb|a IHa];
    intros w; simpl.
  - split; intros H; inversion H.
  - split; intros H; inversion H.
  - destruct (chr_matches icase c u) eqn:E; split; intros H; inversion H; subst.
    + constructor; assumption.
    + constructor.
    + congruence.
  - destruct (in_ranges u rs) eqn:E; split; intros H; inversion H; subst.
    + constructor; assumption.
    + constructor.
    + congruence.
  - destruct (nullable a) eqn:Na.
    + split; intros H.
      * inversion H as [| | | |a' b' w' H1|a' b' w' H1| |]; subst.
        -- inversion H1 as [| | |a' b' w1 w2 Ha Hb| | | |]; subst.
           apply matches_seq_cons; [apply IHa|]; assumption.
        -- apply IHb in H1. change (u :: w) with ([] ++ u :: w).
           constructor; [|assumption].
           apply nullable_matches; assumption.
      * apply matches_seq_cons_inv in H as [[Ha Hb]|[w1 [w2 [-> [Ha Hb]]]]].
        -- apply matches_alt_r. apply IHb; assumption.
        -- apply matches_alt_l. constructor; [apply IHa|]; assumption.
    + split; intros H.
      * inversion H as [| | |a' b' w1 w2 Ha Hb| | | |]; subst.
        apply matches_seq_cons; [apply IHa|]; assumption.
      * apply matches_seq_cons_inv in H as [[Ha Hb]|[w1 [w2 [-> [Ha Hb]]]]].
        -- apply (nullable_matches icase) in Ha. congruence.
        -- constructor; [apply IHa|]; assumption.
  - split; intros H.
    + inversion H; subst;
        [apply matches_alt_l; apply IHa | apply matches_alt_r; apply IHb];
        assumption.
    + inversion H; subst;
        [apply matches_alt_l; apply IHa | apply matches_alt_r; apply IHb];
        assumption.
  - split; intros H.
    + inversion H as [| | |a' b' w1 w2 Ha Hb| | | |]; subst.
      apply IHa in Ha.
      change (u :: w1 ++ w2) with ((u :: w1) ++ w2).
      constructor; assumption.
    + apply matches_star_cons_inv in H as [w1 [w2 [-> [Ha Hs]]]].
      constructor; [apply IHa|]; assumption.
Qed.

(** [match_prefix] answers whether some prefix of the string matches. *)
Lemma match_prefix_spec (icase : bool) (r : regex) (s : jsstring) :
  match_prefix icase r s = true <->
  exists w t, s = w ++ t /\ matches icase r w.
Proof.
  revert r. induction s as [|u s IH]; intros r; simpl.
  - rewrite orb_false_r, (nullable_matches icase). split.
    + intros H. exists [], []. auto.
    + intros [w [t [E H]]]. symmetry in E.
      apply app_eq_nil in E as [-> _]. assumption.
  - rewrite orb_true_iff, (nullable_matches icase), IH. split.
    + intros [H|[w [t [-> H]]]].
      * exists [], (u :: s). auto.
      * exists (u :: w), t. split; [reflexivity|].
        apply deriv_matches; assumption.
    + intros [[|u1 w] [t [E H]]]; [left; assumption|].
      simpl in E. injection E as <- ->. right. exists w, t.
      split; [reflexivity|]. apply deriv_matches; assumption.
Qed.

(** ** Code points below the surrogates are code units *)

Lemma codePointAt_cases (s : jsstring) (i : nat) :
  codePointAt s i = nth_error s i
  \/ exists first v,
       nth_error s i = Some first /\ codePointAt s i = Some v
       /\ 55296 <= first /\ 55296 <= v.
Proof.
  unfold codePointAt.
  destruct (nth_error s i) as [first|]; [|left; reflexivity].
  unfold is_high_surrogate.
  destruct (N.leb_spec 55296 first); cbn [andb]; [|left; reflexivity].
  destruct (first <=? 56319); [|left; reflexivity].
  destruct (nth_error s (S i)) as [second|]; [|left; reflexivity].
  destruct (is_low_surrogate second); [|left; reflexivity].
  right. eexists _, _. repeat split; [assumption | lia].
Qed.

Lemma is_code_codePointAt (s : jsstring) (i : nat) (n : N) :
  n < 55296 -> is_code (codePointAt s i) n = is_code (nth_error s i) n.
Proof.
  intros Hn.
  destruct (codePointAt_cases s i) as [->|[first [v [-> [-> [H1 H2]]]]]];
    [reflexivity|].
  simpl. split_comparisons; try reflexivity; lia.
Qed.

Lemma le_code_codePointAt (s : jsstring) (i : nat) (n : N) :
  n < 55296 -> le_code (codePointAt s i) n = le_code (nth_error s i) n.
Proof.
  intros Hn.
  destruct (codePointAt_cases s i) as [->|[first [v [-> [-> [H1 H2]]]]]];
    [reflexivity|].
  simpl. split_comparisons; try reflexivity; lia.
Qed.

Lemma ge_code_codePointAt (s : jsstring) (i : nat) (n : N) :
  n < 55296 -> ge_code (codePointAt s i) n = ge_code (nth_error s i) n.
Proof.
  intros Hn.
  destruct (codePointAt_cases s i) as [->|[first [v [-> [-> [H1 H2]]]]]];
    [reflexivity|].
  simpl. split_comparisons; try reflexivity; lia.
Qed.

Lemma js_length_3 (a b c : N) (t : jsstring) :
  (js_length (a :: b :: c :: t) <? 3) = false.
Proof. unfold js_length. apply N.ltb_ge. simpl List.length. lia. Qed.

Lemma isWindowsPath_cons3 (a b c : N) (t : jsstring) :
  isWindowsPath (a :: b :: c :: t) = is_letter a && (b =? 58) && (c =? 92).
Proof.
  unfold isWindowsPath. rewrite js_length_3.
  rewrite !ge_code_codePointAt, !le_code_codePointAt, !is_code_codePointAt
    by reflexivity.
  reflexivity.
Qed.

(** [isWindowsPath] is the platform-path pattern. *)
Lemma isWindowsPath_spec (s : jsstring) :
  isWindowsPath s = true <-> windows_path_prefix s.
Proof.
  unfold windows_path_prefix. split.
  - destruct s as [|a [|b [|c t]]]; try discriminate.
    rewrite isWindowsPath_cons3. intros H.
    apply andb_true_iff in H as [H Hc]. apply andb_true_iff in H as [Ha Hb].
    apply N.eqb_eq in Hb, Hc. subst. eauto.
  - intros [l [rest [-> Hl]]]. rewrite isWindowsPath_cons3, Hl. reflexivity.
Qed.

(** ** What the two patterns match *)

Lemma range_single (c u : N) : (c <=? u) && (u <=? c) = (u =? c).
Proof. split_comparisons; try reflexivity; lia. Qed.

Lemma in_ranges_letter (u : N) :
  in_ranges u [(97, 122); (65, 90)] = is_letter u.
Proof. unfold is_letter. simpl. rewrite orb_false_r. apply orb_comm. Qed.

Lemma in_ranges_scheme_char (u : N) :
  in_ranges u [(97, 122); (65, 90); (48, 57); (43, 43); (45, 45); (46, 46)]
  = is_scheme_char u.
Proof.
  unfold is_scheme_char, is_letter, is_digit. simpl.
  rewrite !range_single, orb_false_r.
  destruct ((97 <=? u) && (u <=? 122)), ((65 <=? u) && (u <=? 90)),
    ((48 <=? u) && (u <=? 57)), (u =? 43), (u =? 45); reflexivity.
Qed.

Lemma matches_star_cls (icase : bool) (rs : list (N * N)) (w : jsstring) :
  matches icase (Star (Cls rs)) w <->
  forallb (fun u => in_ranges u rs) w = true.
Proof.
  split.
  - intros H. remember (Star (Cls rs)) as r eqn:Er.
    induction H; try discriminate; [reflexivity|].
    injection Er as ->. inversion H; subst. simpl.
    rewrite IHmatches2 by reflexivity.
    match goal with E : in_ranges _ _ = true |- _ => rewrite E end.
    reflexivity.
  - induction w as [|u w IH]; simpl; intros H; [constructor|].
    apply andb_true_iff in H as [Hu Hw].
    change (u :: w) with ([u] ++ w).
    constructor; [constructor; assumption | auto].
Qed.

Lemma forallb_scheme_char (w : jsstring) :
  forallb (fun u =>
    in_ranges u [(97, 122); (65, 90); (48, 57); (43, 43); (45, 45); (46, 46)])
    w = forallb is_scheme_char w.
Proof.
  induction w as [|u w IH]; [reflexivity|].
  cbn [forallb]. rewrite IH, in_ranges_scheme_char. reflexivity.
Qed.

(** [ABSOLUTE_URL_REGEX] tests the scheme-prefix rule. *)
Lemma ABSOLUTE_URL_REGEX_spec (s : jsstring) :
  RegExp_test ABSOLUTE_URL_REGEX s = true <-> scheme_prefix s.
Proof.
  unfold RegExp_test, scheme_prefix. simpl body. simpl ignoreCase.
  rewrite match_prefix_spec. split.
  - intros [w [t [-> H]]].
    inversion H as [| | |a b w1 w2 Hl H2| | | |]; subst.
    inversion Hl as [| |rs l Hin| | | | |]; subst.
    inversion H2 as [| | |a b w3 w4 Hs Hc| | | |]; subst.
    inversion Hc as [|c u Hu| | | | | |]; subst.
    apply N.eqb_eq in Hu. subst u.
    apply matches_star_cls in Hs. rewrite forallb_scheme_char in Hs.
    exists l, w3, t. repeat split.
    + simpl. rewrite <- app_assoc. reflexivity.
    + rewrite <- in_ranges_letter. assumption.
    + assumption.
  - intros [l [rest [tail [-> [Hl Hr]]]]].
    exists (l :: rest ++ [58]), tail. split.
    + simpl. rewrite <- app_assoc. reflexivity.
    + change (l :: rest ++ [58]) with ([l] ++ rest ++ [58]).
      constructor; [constructor; rewrite in_ranges_letter; assumption|].
      constructor.
      * apply matches_star_cls. rewrite forallb_scheme_char. assumption.
      * constructor. apply N.eqb_refl.
Qed.

(** *** Case folding *)

Lemma lower_eq_58 (u : N) : ascii_to_lower u = 58 <-> u = 58.
Proof. unfold ascii_to_lower. split_comparisons; lia. Qed.

Lemma lower_letter (u n : N) :
  ascii_to_lower u = n -> 97 <= n <= 122 -> is_letter u = true.
Proof.
  unfold ascii_to_lower, is_letter. intros <-.
  split_comparisons; try reflexivity; lia.
Qed.

Lemma letter_scheme_char (u : N) : is_letter u = true -> is_scheme_char u = true.
Proof. unfold is_scheme_char. intros ->. reflexivity. Qed.

Lemma scheme_char_not_colon (u : N) : is_scheme_char u = true -> (u =? 58) = false.
Proof.
  unfold is_scheme_char, is_letter, is_digit.
  destruct (N.eqb_spec u 58) as [->|]; [discriminate | reflexivity].
Qed.

(** Under the [i] flag an ASCII pattern character matches its two casings
    and nothing else. *)
Lemma chr_matches_lower (c u : N) :
  c < 128 ->
  chr_matches true c u = true <-> ascii_to_lower u = ascii_to_lower c.
Proof.
  intros Hc. unfold chr_matches. rewrite N.eqb_eq.
  unfold canonicalize, ascii_to_upper, ascii_to_lower. cbv zeta.
  destruct (N.ltb_spec c 128); [|lia].
  destruct (N.ltb_spec u 128).
  - split_comparisons; lia.
  - destruct (N.ltb_spec (upperNonAscii u) 128); split_comparisons; lia.
Qed.

Arguments ascii_to_lower : simpl never.

Lemma matches_chr_seq (icase : bool) (c : N) (r : regex) (w : jsstring) :
  matches icase (Seq (Chr c) r) w <->
  exists u w', w = u :: w' /\ chr_matches icase c u = true /\ matches icase r w'.
Proof.
  split.
  - intros H. inversion H as [| | |a b w1 w2 Hc Hr| | | |]; subst.
    inversion Hc; subst. simpl. eauto.
  - intros [u [w' [-> [Hu Hr]]]]. change (u :: w') with ([u] ++ w').
    constructor; [constructor|]; assumption.
Qed.

(** [HTTP_PROTOCOLS_REGEX] tests for [http:] or [https:] in any casing. *)
Lemma HTTP_PROTOCOLS_REGEX_spec (s : jsstring) :
  RegExp_test HTTP_PROTOCOLS_REGEX s = true <-> http_shape s.
Proof.
  unfold RegExp_test, http_shape. simpl body. simpl ignoreCase.
  rewrite match_prefix_spec. split.
  - intros [w [t [-> H]]].
    apply matches_chr_seq in H as [a [w1 [-> [Ha H]]]].
    apply matches_chr_seq in H as [b [w2 [-> [Hb H]]]].
    apply matches_chr_seq in H as [c [w3 [-> [Hc H]]]].
    apply matches_chr_seq in H as [d [w4 [-> [Hd H]]]].
    apply chr_matches_lower in Ha, Hb, Hc, Hd; try reflexivity.
    exists a, b, c, d, (w4 ++ t). repeat split; try assumption.
    inversion H as [| | |x y w5 w6 Hs Hcolon| | | |]; subst.
    inversion Hcolon as [|c58 v Hv| | | | | |]; subst.
    apply chr_matches_lower in Hv; [|reflexivity].
    apply (proj1 (lower_eq_58 v)) in Hv. subst v.
    inversion Hs as [| | | |x y w7 He|x y w7 He| |]; subst.
    + inversion He as [|c115 e He'| | | | | |]; subst.
      apply chr_matches_lower in He'; [|reflexivity].
      right. exists e, t. split; [reflexivity | assumption].
    + inversion He; subst. left. exists t. reflexivity.
  - intros [a [b [c [d [rest [-> [Ha [Hb [Hc [Hd Hrest]]]]]]]]]].
    assert (Hcolon : matches true (Chr 58) [58])
      by (constructor; apply chr_matches_lower; reflexivity).
    destruct Hrest as [[t ->]|[e [t [-> He]]]].
    + exists [a; b; c; d; 58], t. split; [reflexivity|].
      repeat (apply matches_chr_seq; eexists _, _;
              split; [reflexivity|];
              split; [apply chr_matches_lower; [reflexivity | eassumption]|]).
      change [58] with ([] ++ [58]). constructor; [|assumption].
      apply matches_alt_r. constructor.
    + exists [a; b; c; d; e; 58], t. split; [reflexivity|].
      repeat (apply matches_chr_seq; eexists _, _;
              split; [reflexivity|];
              split; [apply chr_matches_lower; [reflexivity | eassumption]|]).
      change [e; 58] with ([e] ++ [58]). constructor; [|assumption].
      apply matches_alt_l. constructor.
      apply chr_matches_lower; [reflexivity | assumption].
Qed.

Lemma http_prefix_shape (s : jsstring) : http_prefix s = true <-> http_shape s.
Proof.
  clear lowerNonAscii upperNonAscii.
  unfold http_prefix, eq_ignore_case, http_shape.
  change (map ascii_to_lower (lit "http:")) with [104; 116; 116; 112; 58].
  change (map ascii_to_lower (lit "https:")) with [104; 116; 116; 112; 115; 58].
  split.
  - destruct s as [|a [|b [|c [|d [|e [|f t]]]]]]; simpl; intros H;
      bool_facts H; try (intuition discriminate).
    + exists a, b, c, d, [e]. intuition (try discriminate).
      left. exists []. f_equal. apply lower_eq_58; assumption.
    + exists a, b, c, d, (e :: f :: t).
      destruct H as [H|H].
      * intuition. left. exists (f :: t). f_equal. apply lower_eq_58; assumption.
      * intuition. right. exists e, t. split; [|assumption].
        do 2 f_equal. apply lower_eq_58; assumption.
  - intros [a [b [c [d [rest [-> [Ha [Hb [Hc [Hd Hrest]]]]]]]]]].
    destruct Hrest as [[t ->]|[e [t [-> He]]]]; simpl.
    + rewrite Ha, Hb, Hc, Hd. reflexivity.
    + rewrite Ha, Hb, Hc, Hd, He. reflexivity.
Qed.

(** *** The shortcut only accepts what the patterns accept *)

Lemma toLowerCase_from_target (Hok : lower_case_table_ok)
    (s before target : jsstring) :
  (forall d, In d target -> In d (lit "https:")) ->
  toLowerCase_from before s = target ->
  map ascii_to_lower s = target.
Proof.
  revert before target. induction s as [|u after IH]; simpl; intros before target Ht E.
  - assumption.
  - destruct (N.ltb_spec u 128) as [Hu|Hu].
    + destruct target as [|d target]; [discriminate|].
      simpl in E. injection E as E1 E2. f_equal; [assumption|].
      apply (IH (u :: before)); [|assumption].
      intros d' Hd'. apply Ht. right; assumption.
    + destruct (Hok before u after Hu) as [d [rest [Hl Hd]]].
      rewrite Hl in E. subst target. exfalso. apply Hd, Ht. left; reflexivity.
Qed.

Lemma hasCommonHttpProtocol_sound (Hok : lower_case_table_ok) (s : jsstring) :
  hasCommonHttpProtocol s = true -> http_shape s.
Proof.
  clear upperNonAscii.
  unfold hasCommonHttpProtocol. cbv zeta.
  rewrite !is_code_codePointAt by reflexivity.
  intros H. apply http_prefix_shape.
  unfold http_prefix, eq_ignore_case.
  change (map ascii_to_lower (lit "http:")) with [104; 116; 116; 112; 58].
  change (map ascii_to_lower (lit "https:")) with [104; 116; 116; 112; 115; 58].
  repeat match type of H with
         | (if ?c then _ else _) = true =>
             let E := fresh "E" in
             destruct c eqn:E;
             [ clear H;
               destruct s as [|a [|b [|c' [|d [|e [|f t]]]]]];
               simpl in E; try discriminate E;
               bool_facts E; decompose [and] E; try congruence;
               subst; reflexivity
             | clear E ]
         end.
  apply orb_true_iff in H. unfold toLowerCase, slice0 in H.
  destruct H as [H|H]; apply strict_eq_eq in H;
    apply (toLowerCase_from_target Hok) in H;
    try (intros d Hd; simpl in Hd |- *; tauto).
  - destruct s as [|a [|b [|c' [|d [|e [|f t]]]]]]; try discriminate H.
    simpl in H |- *. injection H as -> -> -> -> ->. reflexivity.
  - destruct s as [|a [|b [|c' [|d [|e [|f t]]]]]]; try discriminate H.
    simpl in H |- *. injection H as -> -> -> -> -> ->.
    apply orb_true_r.
Qed.

Lemma lower_not_colon (u n : N) :
  ascii_to_lower u = n -> n <> 58 -> (u =? 58) = false.
Proof.
  intros H Hn. apply N.eqb_neq. intros ->. apply Hn. rewrite <- H. reflexivity.
Qed.

Lemma http_shape_scheme_prefix (s : jsstring) : http_shape s -> scheme_prefix s.
Proof.
  intros [a [b [c [d [rest [-> [Ha [Hb [Hc [Hd Hrest]]]]]]]]]].
  assert (La : is_letter a = true) by (apply (lower_letter _ _ Ha); lia).
  assert (Lb : is_scheme_char b = true)
    by (apply letter_scheme_char, (lower_letter _ _ Hb); lia).
  assert (Lc : is_scheme_char c = true)
    by (apply letter_scheme_char, (lower_letter _ _ Hc); lia).
  assert (Ld : is_scheme_char d = true)
    by (apply letter_scheme_char, (lower_letter _ _ Hd); lia).
  destruct Hrest as [[t ->]|[e [t [-> He]]]].
  - exists a, [b; c; d], t. simpl. rewrite Lb, Lc, Ld. auto.
  - assert (Le : is_scheme_char e = true)
      by (apply letter_scheme_char, (lower_letter _ _ He); lia).
    exists a, [b; c; d; e], t. simpl. rewrite Lb, Lc, Ld, Le. auto.
Qed.

Lemma http_shape_not_windows (s : jsstring) :
  http_shape s -> isWindowsPath s = false.
Proof.
  intros [a [b [c [d [rest [-> [Ha [Hb _]]]]]]]].
  rewrite isWindowsPath_cons3.
  rewrite (lower_not_colon _ _ Hb) by lia.
  rewrite andb_false_r. reflexivity.
Qed.

(** *** The classification, rule by rule *)

Lemma classify_any (s : jsstring) :
  classify s false = negb (isWindowsPath s) && RegExp_test ABSOLUTE_URL_REGEX s.
Proof.
  unfold classify. cbn [andb].
  destruct (isWindowsPath s), (RegExp_test ABSOLUTE_URL_REGEX s); reflexivity.
Qed.

Lemma classify_http (Hok : lower_case_table_ok) (s : jsstring) :
  classify s true = http_prefix s.
Proof.
  apply eq_iff_eq_true. rewrite http_prefix_shape. unfold classify. cbn [andb].
  destruct (isWindowsPath s) eqn:W.
  - split; [discriminate|]. intros Hs.
    rewrite (http_shape_not_windows _ Hs) in W. discriminate.
  - destruct ((5 <=? js_length s) && hasCommonHttpProtocol s) eqn:F.
    + split; [intros _ | reflexivity].
      apply andb_true_iff in F as [_ F].
      apply hasCommonHttpProtocol_sound; assumption.
    + destruct (RegExp_test ABSOLUTE_URL_REGEX s) eqn:A.
      * apply HTTP_PROTOCOLS_REGEX_spec.
      * split; [discriminate|]. intros Hs.
        apply http_shape_scheme_prefix, ABSOLUTE_URL_REGEX_spec in Hs.
        congruence.
Qed.

Lemma http_shape_app (s t : jsstring) : http_shape s -> http_shape (s ++ t).
Proof.
  intros [a [b [c [d [rest [-> [Ha [Hb [Hc [Hd Hrest]]]]]]]]]].
  exists a, b, c, d, (rest ++ t). repeat split; try assumption.
  destruct Hrest as [[t' ->]|[e [t' [-> He]]]].
  - left. exists (t' ++ t). reflexivity.
  - right. exists e, (t' ++ t). split; [reflexivity | assumption].
Qed.

Lemma scheme_prefix_app (s t : jsstring) :
  scheme_prefix s -> scheme_prefix (s ++ t).
Proof.
  intros [l [rest [tail [-> [Hl Hr]]]]]. exists l, rest, (tail ++ t).
  repeat split; try assumption.
  simpl. rewrite <- app_assoc. reflexivity.
Qed.

Lemma classify_not_scheme (Hok : lower_case_table_ok) (s : jsstring)
    (h : bool) :
  ~ scheme_prefix s -> classify s h = false.
Proof.
  intros Hs. destruct h.
  - rewrite (classify_http Hok).
    destruct (http_prefix s) eqn:E; [|reflexivity].
    apply http_prefix_shape, http_shape_scheme_prefix in E. contradiction.
  - rewrite classify_any.
    destruct (RegExp_test ABSOLUTE_URL_REGEX s) eqn:A.
    + apply ABSOLUTE_URL_REGEX_spec in A. contradiction.
    + apply andb_false_r.
Qed.

(** *** The scheme token *)

Lemma scheme_token_app (tok tail : jsstring) :
  forallb is_scheme_char tok = true ->
  scheme_token (tok ++ 58 :: tail) = tok.
Proof.
  induction tok as [|u tok IH]; simpl; intros H; [reflexivity|].
  apply andb_true_iff in H as [Hu Ht].
  rewrite (scheme_char_not_colon _ Hu), IH by assumption. reflexivity.
Qed.

Lemma scheme_prefix_token (s : jsstring) :
  scheme_prefix s -> exists tail, s = scheme_token s ++ 58 :: tail.
Proof.
  intros [l [rest [tail [-> [Hl Hr]]]]]. exists tail.
  change (l :: rest ++ 58 :: tail) with ((l :: rest) ++ 58 :: tail).
  rewrite scheme_token_app; [reflexivity|].
  simpl. rewrite (letter_scheme_char _ Hl). assumption.
Qed.

Lemma http_shape_token (s : jsstring) :
  scheme_prefix s ->
  http_shape s <-> is_http_scheme (scheme_token s) = true.
Proof.
  intros Hp. unfold is_http_scheme, eq_ignore_case.
  change (map ascii_to_lower (lit "http")) with [104; 116; 116; 112].
  change (map ascii_to_lower (lit "https")) with [104; 116; 116; 112; 115].
  split.
  - intros [a [b [c [d [rest [-> [Ha [Hb [Hc [Hd Hrest]]]]]]]]]].
    simpl scheme_token.
    rewrite (lower_not_colon _ _ Ha), (lower_not_colon _ _ Hb),
      (lower_not_colon _ _ Hc), (lower_not_colon _ _ Hd) by lia.
    destruct Hrest as [[t ->]|[e [t [-> He]]]]; simpl scheme_token.
    + simpl. rewrite Ha, Hb, Hc, Hd. reflexivity.
    + rewrite (lower_not_colon _ _ He) by lia.
      simpl. rewrite Ha, Hb, Hc, Hd, He. reflexivity.
  - destruct (scheme_prefix_token s Hp) as [tail Es].
    remember (scheme_token s) as tok eqn:Et. clear Et Hp. subst s.
    intros H. apply http_prefix_shape.
    unfold http_prefix, eq_ignore_case.
    change (map ascii_to_lower (lit "http:")) with [104; 116; 116; 112; 58].
    change (map ascii_to_lower (lit "https:"))
      with [104; 116; 116; 112; 115; 58].
    destruct tok as [|a [|b [|c [|d [|e [|f t]]]]]]; simpl in H |- *;
      bool_facts H; try (exfalso; intuition discriminate).
    + destruct H as [H|H]; [|exfalso; intuition discriminate].
      decompose [and] H. repeat match goal with E : ascii_to_lower _ = _ |- _ =>
                                          rewrite E; clear E end.
      reflexivity.
    + destruct H as [H|H]; [exfalso; intuition discriminate|].
      decompose [and] H. repeat match goal with E : ascii_to_lower _ = _ |- _ =>
                                          rewrite E; clear E end.
      reflexivity.
Qed.

(** ** What calls with other options can have stored

    The key joins the string and the text of [httpOnly] with a bar, and
    both may hold bars: the key of a string and a boolean may have been
    written for a shorter string, and by a value that is no boolean. *)

Lemma cacheKey_cut (url text s suffix : jsstring) :
  ~ In 124 suffix ->
  cacheKey url text = cacheKey s suffix ->
  (url = s /\ text = suffix)
  \/ (exists w, s = url ++ 124 :: w /\ text = w ++ 124 :: suffix).
Proof.
  unfold cacheKey. change (lit "|") with [124]. intros Hs. revert s.
  induction url as [|a url IH]; intros [|c s] E; simpl in E.
  - left. injection E as ->. auto.
  - right. injection E as <- ->. exists s. auto.
  - injection E as -> E. exfalso. apply Hs. rewrite <- E.
    apply in_or_app. right. left. reflexivity.
  - injection E as -> E.
    destruct (IH _ E) as [[-> ->]|[w [-> ->]]];
      [left; auto | right; exists w; auto].
Qed.

Lemma not_suffix_true (w text : jsstring) :
  (List.length text < 4)%nat -> text <> w ++ lit "true".
Proof.
  intros Hlen E. apply (f_equal (@List.length N)) in E.
  rewrite length_app in E. simpl in E. lia.
Qed.

(** No falsy value has a text that ends in [true]. *)
Lemma truthy_text (v : value) (w : jsstring) :
  ToString v = Normal (w ++ lit "true") -> ToBoolean v = true.
Proof.
  destruct v as [| |[|]|t|t|t| |h t|h t]; simpl;
    try reflexivity; try discriminate; intros [= E].
  - apply (f_equal (@rev N)) in E. rewrite rev_app_distr in E.
    vm_compute in E. discriminate.
  - apply (f_equal (@rev N)) in E. rewrite rev_app_distr in E.
    vm_compute in E. discriminate.
  - apply (f_equal (@rev N)) in E. rewrite rev_app_distr in E.
    vm_compute in E. discriminate.
  - apply negb_true_iff, orb_false_iff.
    split; apply strict_eq_neq; rewrite E;
      apply not_eq_sym, not_suffix_true; simpl; lia.
  - apply negb_true_iff, strict_eq_neq. rewrite E.
    apply not_eq_sym, not_suffix_true. simpl. lia.
  - apply negb_true_iff, strict_eq_neq. rewrite E.
    apply not_eq_sym, not_suffix_true. simpl. lia.
Qed.

Lemma read_options_truthy (options : value) (text : jsstring) (h : bool)
    (w : jsstring) :
  read_options options = Normal (text, h) ->
  text = w ++ lit "true" ->
  h = true.
Proof.
  unfold read_options.
  destruct (resolve_httpOnly options) as [v|e]; [|discriminate].
  destruct (ToString v) as [text'|e] eqn:Hv; [|discriminate].
  intros [= <- <-] ->. apply (truthy_text v w Hv).
Qed.

Lemma http_prefix_cut (url w : jsstring) :
  http_prefix (url ++ 124 :: w) = http_prefix url.
Proof.
  apply eq_iff_eq_true. rewrite !http_prefix_shape. split.
  - intros [a [b [c [d [rest [E [Ha [Hb [Hc [Hd Hrest]]]]]]]]]].
    destruct url as [|u1 [|u2 [|u3 [|u4 url]]]]; simpl in E;
      injection E as; subst; try discriminate.
    exists a, b, c, d, url. repeat split; try assumption.
    destruct Hrest as [[t E]|[e [t [E He]]]].
    + destruct url as [|u5 url]; simpl in E; injection E as; subst;
        [discriminate|]. left. eauto.
    + destruct url as [|u5 [|u6 url]]; simpl in E; injection E as; subst;
        try discriminate. right. eauto.
  - apply http_shape_app.
Qed.

(** In every cache the program reaches, a call on a string with documented
    options returns the classification of that string, or of the part of
    it before one of its bars; under the policy of the options when that
    policy is HttpOnly. *)
Lemma reachable_result_cut (s : jsstring) (options : option Options)
    (cache : Map) :
  reachable cache ->
  exists url h,
    (url = s \/ exists w, s = url ++ 124 :: w)
    /\ (documented_policy options = true -> h = true)
    /\ call_result (VString s) (js_options options) cache
       = Normal (VBoolean (classify url h)).
Proof.
  intros Hr. unfold call_result.
  destruct (Map_get (documented_key s options) cache) as [b|] eqn:Hget.
  - rewrite (isAbsoluteUrl_hit _ _ _ _ Hget). cbn [fst].
    apply Map_get_In in Hget.
    destruct (stored_entry _ _ _ (reachable_stored _ Hr) Hget)
      as [url [o [text [h [Hread [Hk ->]]]]]].
    exists url, h.
    assert (Hbar : ~ In 124 (boolean_text (documented_policy options)))
      by (destruct (documented_policy options); simpl;
          intuition discriminate).
    unfold documented_key in Hk. symmetry in Hk.
    destruct (cacheKey_cut _ _ _ _ Hbar Hk) as [[-> ->]|[w [-> ->]]].
    + split; [left; reflexivity|]. split; [|reflexivity].
      intros Hp. rewrite Hp in Hread.
      apply (read_options_truthy _ _ _ [] Hread). reflexivity.
    + split; [right; exists w; reflexivity|]. split; [|reflexivity].
      intros Hp. rewrite Hp in Hread.
      apply (read_options_truthy _ _ _ (w ++ [124]) Hread).
      rewrite <- app_assoc. reflexivity.
  - rewrite isAbsoluteUrl_miss by (rewrite Map_has_get, Hget; reflexivity).
    exists s, (documented_policy options). auto.
Qed.

(** Under the HttpOnly policy no earlier call changes the answer. *)
Lemma reachable_http_result (Hok : lower_case_table_ok) (s : jsstring)
    (options : option Options) (cache : Map) :
  reachable cache ->
  documented_policy options = true ->
  call_result (VString s) (js_options options) cache
  = Normal (VBoolean (http_prefix s)).
Proof.
  intros Hr Hp.
  destruct (reachable_result_cut s options cache Hr)
    as [url [h [Hcut [Hh ->]]]].
  rewrite (Hh Hp), (classify_http Hok).
  destruct Hcut as [->|[w ->]]; [reflexivity|].
  rewrite http_prefix_cut. reflexivity.
Qed.

(** Nor does one change the answer for a string without a scheme. *)
Lemma reachable_no_scheme_result (Hok : lower_case_table_ok) (s : jsstring)
    (options : option Options) (cache : Map) :
  reachable cache ->
  ~ scheme_prefix s ->
  call_result (VString s) (js_options options) cache
  = Normal (VBoolean false).
Proof.
  intros Hr Hs.
  destruct (reachable_result_cut s options cache Hr)
    as [url [h [Hcut [_ ->]]]].
  rewrite (classify_not_scheme Hok); [reflexivity|].
  destruct Hcut as [->|[w ->]]; [assumption|].
  intros H. apply Hs, scheme_prefix_app, H.
Qed.

(** ** The classification rules *)

(** C1, as amended. Under [httpOnly: false], in every cache the program
    reaches through calls with documented options: a string that matches
    the scheme-prefix grammar and does not begin with the platform-path
    pattern (a letter, a colon, a backslash) yields [true]; a string that
    does not match the grammar yields [false]. *)
Theorem scheme_grammar_conformance (s : jsstring) (cache : Map) :
  reachable_documented cache ->
  (scheme_prefix s -> ~ windows_path_prefix s ->
   call_result (VString s) (js_options (with_httpOnly false)) cache
   = Normal (VBoolean true))
  /\ (~ scheme_prefix s ->
      call_result (VString s) (js_options (with_httpOnly false)) cache
      = Normal (VBoolean false)).
Proof.
  intros Hr. rewrite (reachable_result _ _ _ Hr). simpl documented_policy.
  rewrite classify_any. split.
  - intros Hs Hw.
    apply ABSOLUTE_URL_REGEX_spec in Hs. rewrite Hs.
    destruct (isWindowsPath s) eqn:W; [|reflexivity].
    apply isWindowsPath_spec in W. contradiction.
  - intros Hs.
    destruct (RegExp_test ABSOLUTE_URL_REGEX s) eqn:A.
    + apply ABSOLUTE_URL_REGEX_spec in A. contradiction.
    + rewrite andb_false_r. reflexivity.
Qed.

(** C2. Under the HttpOnly policy ([httpOnly: true] or omitted), for a
    string that matches the scheme-prefix grammar, the call returns [true]
    if and only if the scheme token is [http] or [https] in any casing; in
    every cache the program reaches, whatever the arguments of the calls
    before. *)
Theorem http_only_rule (Hok : lower_case_table_ok) (s : jsstring)
    (options : option Options) (cache : Map) :
  reachable cache ->
  scheme_prefix s ->
  documented_policy options = true ->
  call_result (VString s) (js_options options) cache
  = Normal (VBoolean (is_http_scheme (scheme_token s))).
Proof.
  intros Hr Hs Ho. rewrite (reachable_http_result Hok _ _ _ Hr Ho).
  do 2 f_equal.
  apply eq_iff_eq_true. rewrite http_prefix_shape.
  apply http_shape_token; assumption.
Qed.

(** C3. A string whose first three characters are a letter, a colon and
    a backslash yields [false] under every policy, although it matches the
    scheme-prefix grammar with a one-letter scheme; in every cache the
    program reaches, whatever the arguments of the calls before. *)
Theorem platform_path_precedence (l : N) (rest : jsstring)
    (options : option Options) (cache : Map) :
  reachable cache ->
  is_letter l = true ->
  scheme_prefix (l :: 58 :: 92 :: rest)
  /\ call_result (VString (l :: 58 :: 92 :: rest)) (js_options options) cache
     = Normal (VBoolean false).
Proof.
  intros Hr Hl. split.
  - exists l, [], (92 :: rest). auto.
  - destruct (reachable_result_cut (l :: 58 :: 92 :: rest) options cache Hr)
      as [url [h [Hcut [_ ->]]]].
    assert (Hw : isWindowsPath url = true).
    { destruct Hcut as [->|[w E]].
      - rewrite isWindowsPath_cons3, Hl. reflexivity.
      - destruct url as [|a [|b [|c url]]]; simpl in E; injection E as;
          subst; try discriminate.
        rewrite isWindowsPath_cons3, Hl. reflexivity. }
    unfold classify. rewrite Hw. reflexivity.
Qed.

(** C8. [c:/windows] is not a platform path for [isWindowsPath]: it
    yields [true] under [httpOnly: false] and [false] under
    [httpOnly: true], in every cache the program reaches through calls
    with documented options. *)
Theorem forward_slash_drive (cache : Map) :
  reachable_documented cache ->
  isWindowsPath (lit "c:/windows") = false
  /\ call_result (VString (lit "c:/windows"))
       (js_options (with_httpOnly false)) cache
     = Normal (VBoolean true)
  /\ call_result (VString (lit "c:/windows"))
       (js_options (with_httpOnly true)) cache
     = Normal (VBoolean false).
Proof.
  intros Hr. rewrite !(reachable_result _ _ _ Hr).
  repeat split; vm_compute; reflexivity.
Qed.

(** C7. The shortcut for the common HTTP(S) prefixes changes nothing: with
    any two arguments and on any cache, a call returns the same completion
    and leaves the same cache as the reference route without it; and a
    string that begins with [http:] or [https:] in any casing yields
    [true] under the HttpOnly policy, in every cache the program reaches,
    whatever the arguments of the calls before. *)
Theorem fast_path_equivalent (Hok : lower_case_table_ok) (s : jsstring)
    (options : option Options) (cache : Map) :
  (forall url any_options,
     isAbsoluteUrl url any_options cache
     = isAbsoluteUrl_reference url any_options cache)
  /\ (reachable cache ->
      documented_policy options = true ->
      http_prefix s = true ->
      call_result (VString s) (js_options options) cache
      = Normal (VBoolean true)).
Proof.
  split.
  - intros url any_options.
    destruct url as [| | |t|t|u| |h t|h t]; try reflexivity.
    unfold isAbsoluteUrl, isAbsoluteUrl_reference, bind, evaluate.
    destruct (resolve_httpOnly any_options) as [v|e]; [|reflexivity].
    destruct (ToString v) as [text|e]; [|reflexivity].
    destruct (cache_has (cacheKey u text) cache)
      as [[hit|e] cache']; [|reflexivity].
    destruct hit; [reflexivity|].
    destruct (isWindowsPath u); [reflexivity|].
    destruct (ToBoolean v && (5 <=? js_length u)
              && hasCommonHttpProtocol u) eqn:F; [|reflexivity].
    apply andb_true_iff in F as [F Hfast].
    apply andb_true_iff in F as [-> _].
    apply (hasCommonHttpProtocol_sound Hok) in Hfast.
    rewrite (proj2 (HTTP_PROTOCOLS_REGEX_spec u) Hfast).
    rewrite (proj2 (ABSOLUTE_URL_REGEX_spec u)
               (http_shape_scheme_prefix u Hfast)).
    reflexivity.
  - intros Hr Ho Hs. rewrite (reachable_http_result Hok _ _ _ Hr Ho), Hs.
    reflexivity.
Qed.

(** ** The cache *)

(** C4, as amended. After any sequence of calls made with options of the
    documented shape (whatever their first argument), a call on a string
    with such options returns what it returns on the empty cache; calling
    again returns the same; and the cache key tells apart any two pairs of
    a string and a boolean [httpOnly]. Under the HttpOnly policy the call
    returns what it returns on the empty cache after any sequence of calls
    at all. *)
Theorem cache_transparent (calls : list (value * option Options))
    (s : jsstring) (options : option Options) :
  call_result (VString s) (js_options options)
    (run_calls (documented_calls calls) [])
  = call_result (VString s) (js_options options) []
  /\ call_result (VString s) (js_options options)
       (call_cache (VString s) (js_options options)
          (run_calls (documented_calls calls) []))
     = call_result (VString s) (js_options options)
         (run_calls (documented_calls calls) [])
  /\ (forall s' h h',
        cacheKey s (boolean_text h) = cacheKey s' (boolean_text h') ->
        s = s' /\ h = h')
  /\ (lower_case_table_ok ->
      documented_policy options = true ->
      forall any_calls : list (value * value),
        call_result (VString s) (js_options options) (run_calls any_calls [])
        = call_result (VString s) (js_options options) []).
Proof.
  assert (Hr : reachable_documented (run_calls (documented_calls calls) []))
    by (apply run_calls_documented; constructor).
  split; [|split; [|split]].
  - rewrite (reachable_result _ _ _ Hr).
    rewrite (reachable_result _ _ _ documented_init). reflexivity.
  - rewrite (reachable_result _ _ _ Hr).
    apply reachable_result. constructor; assumption.
  - intros s' h h'. apply cacheKey_inj.
  - intros Hok Hp any_calls.
    rewrite (reachable_http_result Hok s options (run_calls any_calls []))
      by (try assumption; apply run_calls_reachable, reachable_init).
    rewrite (reachable_http_result Hok s options [] reachable_init Hp).
    reflexivity.
Qed.

(** C9. A call whose key is in the cache returns the stored boolean and
    leaves the cache as it was, entry for entry and in the same order;
    whatever the options, documented or not, from which the call reads
    its key. *)
Theorem cache_hit_no_mutation (s : jsstring) (options : value)
    (text : jsstring) (h : bool) (cache : Map) :
  read_options options = Normal (text, h) ->
  Map_has (cacheKey s text) cache = true ->
  exists b,
    Map_get (cacheKey s text) cache = Some b
    /\ isAbsoluteUrl (VString s) options cache = (Normal (VBoolean b), cache).
Proof.
  intros Hread. rewrite Map_has_get.
  destruct (Map_get (cacheKey s text) cache) as [b|] eqn:Hget; [|discriminate].
  intros _. exists b. split; [reflexivity|].
  apply (isAbsoluteUrl_read_hit _ _ _ _ _ _ Hread Hget).
Qed.

(** C10. A call that throws, with any two arguments, leaves the cache as
    it was. With options of the documented shape it throws the type error,
    and only on a first argument that is not a string. *)
Theorem failing_call_preserves_cache (url options : value) (cache : Map)
    (e : exn) :
  call_result url options cache = Throw e ->
  call_cache url options cache = cache
  /\ (forall documented : option Options,
        options = js_options documented ->
        typeof url <> "string"%string
        /\ e = TypeError ("Expected a `string`, got `" ++ typeof url ++ "`")).
Proof.
  intros He. split.
  - unfold call_result, call_cache in *.
    destruct (call_cases url options cache)
      as [[e' E]|[s [text [h [_ [_ [[b [_ E]]|[_ E]]]]]]]];
      rewrite E in *; simpl in *; [reflexivity | discriminate | discriminate].
  - intros documented ->.
    destruct (string_dec (typeof url) "string") as [Hs|Hs].
    + destruct url as [| | |t|t|s| |h t|h t]; try discriminate Hs.
      destruct (string_call_returns s documented cache) as [b Hb].
      congruence.
    + unfold call_result in He.
      rewrite isAbsoluteUrl_not_string in He by assumption.
      cbn [fst] in He. injection He as <-. split; [assumption | reflexivity].
Qed.

(** C6, as amended. A call whose first argument is not a string throws,
    whatever its options and the cache, the type error whose message names
    the type of the argument as [typeof] gives it. A call on a string
    returns a boolean whenever it can read its options, and so for all
    options of the documented shape. *)
Theorem type_error_iff_not_string :
  (forall options cache,
     call_result VUndefined options cache
     = Throw (TypeError "Expected a `string`, got `undefined`")
     /\ call_result VNull options cache
        = Throw (TypeError "Expected a `string`, got `object`")
     /\ (forall b,
           call_result (VBoolean b) options cache
           = Throw (TypeError "Expected a `string`, got `boolean`"))
     /\ (forall n,
           call_result (VNumber n) options cache
           = Throw (TypeError "Expected a `string`, got `number`"))
     /\ (forall n,
           call_result (VBigInt n) options cache
           = Throw (TypeError "Expected a `string`, got `bigint`"))
     /\ call_result VSymbol options cache
        = Throw (TypeError "Expected a `string`, got `symbol`")
     /\ (forall h t,
           call_result (VObject h t) options cache
           = Throw (TypeError "Expected a `string`, got `object`"))
     /\ (forall h t,
           call_result (VFunction h t) options cache
           = Throw (TypeError "Expected a `string`, got `function`")))
  /\ (forall s options text h cache,
        read_options options = Normal (text, h) ->
        exists b, call_result (VString s) options cache = Normal (VBoolean b))
  /\ (forall s (documented : option Options) cache,
        exists b,
          call_result (VString s) (js_options documented) cache
          = Normal (VBoolean b)).
Proof.
  split; [|split].
  - intros options cache. repeat split; intros; reflexivity.
  - intros s options text h cache Hread. unfold call_result.
    destruct (Map_get (cacheKey s text) cache) as [b|] eqn:Hget.
    + exists b. rewrite (isAbsoluteUrl_read_hit _ _ _ _ _ _ Hread Hget).
      reflexivity.
    + eexists. rewrite (isAbsoluteUrl_read_miss _ _ _ _ _ Hread);
        [reflexivity|].
      rewrite Map_has_get, Hget. reflexivity.
  - intros s documented cache. apply string_call_returns.
Qed.

(** *** Capacity and eviction *)

Lemma Map_size_make_room (cache : Map) :
  Map_size cache <= CACHE_MAX_SIZE ->
  Map_size (make_room cache) + 1 <= CACHE_MAX_SIZE.
Proof.
  unfold make_room.
  destruct (N.leb_spec CACHE_MAX_SIZE (Map_size cache)).
  - rewrite Map_size_tl. unfold CACHE_MAX_SIZE in *. lia.
  - lia.
Qed.

Lemma Map_size_call (url : value) (options : value) (cache : Map) :
  Map_size cache <= CACHE_MAX_SIZE ->
  Map_size (call_cache url options cache) <= CACHE_MAX_SIZE.
Proof.
  intros Hsize. unfold call_cache.
  destruct (call_cases url options cache)
    as [[e ->]|[s [text [h [_ [_ [[b [_ ->]]|[_ ->]]]]]]]];
    try exact Hsize.
  simpl. rewrite Map_size_app.
  change (Map_size [(cacheKey s text, classify s h)]) with 1.
  apply Map_size_make_room; assumption.
Qed.

Lemma Map_size_run (calls : list (value * value)) (cache : Map) :
  Map_size cache <= CACHE_MAX_SIZE ->
  Map_size (run_calls calls cache) <= CACHE_MAX_SIZE.
Proof.
  revert cache. induction calls as [|[url options] calls IH]; simpl; intros.
  - assumption.
  - apply IH, Map_size_call. assumption.
Qed.

Lemma tl_skipn {A : Type} (n : nat) (l : list A) :
  tl (skipn n l) = skipn (S n) l.
Proof.
  revert l. induction n as [|n IH]; intros [|x l]; simpl; auto.
Qed.

Lemma tl_map {A B : Type} (f : A -> B) (l : list A) :
  tl (map f l) = map f (tl l).
Proof. destruct l; reflexivity. Qed.

Lemma In_skipn_In {A : Type} (x : A) (n : nat) (l : list A) :
  In x (skipn n l) -> In x l.
Proof.
  intros H. rewrite <- (firstn_skipn n l). apply in_or_app. right; assumption.
Qed.

Lemma string_calls_app (l1 l2 : list (jsstring * option Options)) :
  string_calls (l1 ++ l2) = string_calls l1 ++ string_calls l2.
Proof. apply map_app. Qed.

Lemma Map_has_entries (k : jsstring) (l : list (jsstring * option Options)) :
  ~ In k (map call_key l) ->
  Map_has k (map (fun c => entry_of (fst c) (snd c)) l) = false.
Proof.
  intros H. destruct (Map_has k _) eqn:E; [|reflexivity].
  apply Map_has_keys in E. rewrite map_map in E. contradiction.
Qed.

(** From the empty cache, calls with distinct keys leave the entries of the
    last [CACHE_MAX_SIZE] of them, in the order of the calls. *)
Lemma run_distinct_calls (l : list (jsstring * option Options)) :
  NoDup (map call_key l) ->
  run_calls (string_calls l) []
  = map (fun c => entry_of (fst c) (snd c))
      (skipn (List.length l - N.to_nat CACHE_MAX_SIZE) l).
Proof.
  change (N.to_nat CACHE_MAX_SIZE) with 1000%nat.
  induction l as [|x l IH] using rev_ind; intros Hnd; [reflexivity|].
  rewrite map_app in Hnd. simpl in Hnd.
  assert (Hx : ~ In (call_key x) (map call_key l)).
  { apply NoDup_remove_2 in Hnd. rewrite app_nil_r in Hnd. assumption. }
  apply NoDup_remove_1 in Hnd. rewrite app_nil_r in Hnd.
  rewrite string_calls_app, run_calls_app, (IH Hnd).
  cbn [string_calls map run_calls fst snd]. unfold call_cache.
  rewrite isAbsoluteUrl_miss.
  2:{ apply Map_has_entries. intros H. apply Hx.
      apply in_map_iff in H as [c [Hc Hin]]. apply in_map_iff.
      exists c. split; [assumption|]. apply (In_skipn_In _ _ _ Hin). }
  cbn [snd]. rewrite length_app. cbn [List.length].
  rewrite skipn_app, map_app.
  replace (List.length l + 1 - 1000 - List.length l)%nat with 0%nat by lia.
  cbn [skipn map]. f_equal.
  unfold make_room, Map_size, CACHE_MAX_SIZE.
  rewrite length_map, length_skipn.
  destruct (N.leb_spec 1000 (N.of_nat (List.length l - (List.length l - 1000)))).
  - rewrite tl_map, tl_skipn. do 2 f_equal. lia.
  - do 2 f_equal. lia.
Qed.

Lemma distinct_keys_NoDup (keys : list jsstring) :
  distinct_keys keys = true -> NoDup keys.
Proof.
  induction keys as [|k keys IH]; simpl; intros H; constructor.
  - apply andb_true_iff in H as [H _]. apply negb_true_iff in H.
    intros Hin. apply not_true_iff_false in H. apply H.
    apply existsb_exists. exists k. split; [assumption|].
    apply strict_eq_refl.
  - apply andb_true_iff in H as [_ H]. auto.
Qed.

(** C5. The cache never holds more than [CACHE_MAX_SIZE] = 1000 entries:
    a call keeps the bound, and so does every sequence of calls from the
    empty cache; a miss on a full cache drops exactly the oldest entry and
    appends the new one; and after a call followed by 1000 or more calls
    with other, distinct keys, the key of the first call is no longer in
    the cache. *)
Theorem cache_bound :
  (forall url options cache,
     Map_size cache <= CACHE_MAX_SIZE ->
     Map_size (call_cache url options cache) <= CACHE_MAX_SIZE)
  /\ (forall calls, Map_size (run_calls calls []) <= CACHE_MAX_SIZE)
  /\ (forall s options cache,
        Map_has (documented_key s options) cache = false ->
        CACHE_MAX_SIZE <= Map_size cache ->
        call_cache (VString s) (js_options options) cache
        = tl cache ++ [entry_of s options])
  /\ (forall first rest,
        NoDup (map call_key (first :: rest)) ->
        CACHE_MAX_SIZE <= N.of_nat (List.length rest) ->
        Map_has (call_key first)
          (run_calls (string_calls (first :: rest)) []) = false).
Proof.
  split; [exact Map_size_call|].
  split; [intros calls; apply Map_size_run; unfold Map_size; simpl; lia|].
  split.
  - intros s options cache Hmiss Hfull. unfold call_cache.
    rewrite isAbsoluteUrl_miss by assumption. simpl. unfold make_room.
    apply N.leb_le in Hfull. rewrite Hfull. reflexivity.
  - intros first rest Hnd Hlen. rewrite (run_distinct_calls _ Hnd).
    change (N.to_nat CACHE_MAX_SIZE) with 1000%nat.
    apply Map_has_entries.
    unfold CACHE_MAX_SIZE in Hlen.
    replace (List.length (first :: rest) - 1000)%nat
      with (S (List.length rest - 1000)) by (cbn [List.length]; lia).
    cbn [skipn]. simpl in Hnd. apply NoDup_cons_iff in Hnd as [Hfirst _].
    intros H. apply Hfirst.
    apply in_map_iff in H as [c [Hc Hin]]. apply in_map_iff.
    exists c. split; [assumption|]. apply (In_skipn_In _ _ _ Hin).
Qed.

(** ** Further properties of the code *)

(** *** The two helper predicates *)

(** X1. [isWindowsPath] holds exactly of the strings that begin with a
    letter, a colon and a backslash: it reads the first three code units
    and nothing else (reading code points, which may join two surrogates,
    makes no difference), and a string shorter than three is never a
    path. *)
Theorem isWindowsPath_reads_three_units (s : jsstring) :
  (isWindowsPath s = true <-> windows_path_prefix s)
  /\ isWindowsPath s = isWindowsPath (firstn 3 s)
  /\ ((List.length s < 3)%nat -> isWindowsPath s = false).
Proof.
  split; [apply isWindowsPath_spec|].
  destruct s as [|a [|b [|c t]]]; try (split; reflexivity).
  split.
  - cbn [firstn]. rewrite !isWindowsPath_cons3. reflexivity.
  - simpl. lia.
Qed.

Lemma lower_lt_128 (u : N) : ascii_to_lower u < 128 -> u < 128.
Proof. unfold ascii_to_lower. split_comparisons; lia. Qed.

Lemma toLowerCase_from_ascii (s before : jsstring) :
  Forall (fun u => u < 128) s ->
  toLowerCase_from before s = map ascii_to_lower s.
Proof.
  revert before. induction s as [|u s IH]; intros before H; [reflexivity|].
  inversion H as [|u' s' Hu Hs]; subst. cbn [toLowerCase_from map].
  apply N.ltb_lt in Hu. rewrite Hu, IH by assumption. reflexivity.
Qed.

Lemma lower_image_ascii (s target : jsstring) :
  map ascii_to_lower s = target ->
  Forall (fun u => u < 128) target ->
  Forall (fun u => u < 128) s.
Proof.
  intros <-. induction s as [|u s IH]; intros H; constructor;
    inversion H; subst; auto using lower_lt_128.
Qed.

(** A string whose lower case is the ASCII text [target] is lowered by the
    platform to [target], whatever its case table. *)
Lemma toLowerCase_of_lower_image (s target : jsstring) :
  map ascii_to_lower s = target ->
  Forall (fun u => u < 128) target ->
  toLowerCase s = target.
Proof.
  intros E H. unfold toLowerCase.
  rewrite toLowerCase_from_ascii by (eapply lower_image_ascii; eassumption).
  assumption.
Qed.

Lemma firstn_6_length_5 (s : jsstring) :
  List.length (firstn 6 s) = 5%nat -> firstn 6 s = s.
Proof.
  intros H. rewrite length_firstn in H. apply firstn_all2. lia.
Qed.

(** X2. [hasCommonHttpProtocol] accepts exactly: a string that begins with
    [http:] in lower case or with [HTTP:] in upper case, a string that
    begins with [https:] in any casing, and the five-unit string [http:]
    itself in any casing. A mixed-case [http:] followed by anything is not
    accepted by the shortcut. *)
Theorem hasCommonHttpProtocol_accepts (Hok : lower_case_table_ok)
    (s : jsstring) :
  hasCommonHttpProtocol s = true <->
  (firstn 5 s = lit "http:"
   \/ firstn 5 s = lit "HTTP:"
   \/ eq_ignore_case (firstn 6 s) (lit "https:") = true
   \/ eq_ignore_case s (lit "http:") = true).
Proof.
  clear upperNonAscii.
  unfold eq_ignore_case.
  change (map ascii_to_lower (lit "http:")) with [104; 116; 116; 112; 58].
  change (map ascii_to_lower (lit "https:")) with [104; 116; 116; 112; 115; 58].
  change (lit "http:") with [104; 116; 116; 112; 58].
  change (lit "HTTP:") with [72; 84; 84; 80; 58].
  rewrite !strict_eq_eq.
  unfold hasCommonHttpProtocol. cbv zeta.
  rewrite !is_code_codePointAt by reflexivity.
  change (lit "http:") with [104; 116; 116; 112; 58].
  change (lit "https:") with [104; 116; 116; 112; 115; 58].
  unfold slice0. split.
  - intros H.
    destruct (is_code (nth_error s 0) 104 && is_code (nth_error s 1) 116
              && is_code (nth_error s 2) 116 && is_code (nth_error s 3) 112
              && is_code (nth_error s 4) 58) eqn:E1.
    { left. destruct s as [|a [|b [|c [|d [|e t]]]]]; simpl in E1;
        bool_facts E1; decompose [and] E1; try congruence.
      subst. reflexivity. }
    destruct (is_code (nth_error s 0) 72 && is_code (nth_error s 1) 84
              && is_code (nth_error s 2) 84 && is_code (nth_error s 3) 80
              && is_code (nth_error s 4) 58) eqn:E2.
    { right; left. destruct s as [|a [|b [|c [|d [|e t]]]]]; simpl in E2;
        bool_facts E2; decompose [and] E2; try congruence.
      subst. reflexivity. }
    destruct (is_code (nth_error s 0) 104 && is_code (nth_error s 1) 116
              && is_code (nth_error s 2) 116 && is_code (nth_error s 3) 112
              && is_code (nth_error s 4) 115 && is_code (nth_error s 5) 58)
      eqn:E3.
    { right; right; left.
      destruct s as [|a [|b [|c [|d [|e [|f t]]]]]]; simpl in E3;
        bool_facts E3; decompose [and] E3; try congruence.
      subst. reflexivity. }
    destruct (is_code (nth_error s 0) 72 && is_code (nth_error s 1) 84
              && is_code (nth_error s 2) 84 && is_code (nth_error s 3) 80
              && is_code (nth_error s 4) 83 && is_code (nth_error s 5) 58)
      eqn:E4.
    { right; right; left.
      destruct s as [|a [|b [|c [|d [|e [|f t]]]]]]; simpl in E4;
        bool_facts E4; decompose [and] E4; try congruence.
      subst. reflexivity. }
    apply orb_true_iff in H. unfold toLowerCase in H.
    destruct H as [H|H]; apply strict_eq_eq in H;
      apply (toLowerCase_from_target Hok) in H;
      try (intros d Hd; simpl in Hd |- *; tauto).
    + right; right; right.
      rewrite <- (firstn_6_length_5 s); [assumption|].
      rewrite <- (length_map ascii_to_lower), H. reflexivity.
    + right; right; left. assumption.
  - intros H.
    repeat match goal with
           | |- (if ?c then true else _) = true =>
               let E := fresh "E" in destruct c eqn:E; [reflexivity|]
           end.
    destruct H as [H|[H|[H|H]]].
    + destruct s as [|a [|b [|c [|d [|e t]]]]]; try discriminate H.
      simpl in H. injection H as -> -> -> -> ->. discriminate E.
    + destruct s as [|a [|b [|c [|d [|e t]]]]]; try discriminate H.
      simpl in H. injection H as -> -> -> -> ->. discriminate E0.
    + rewrite (toLowerCase_of_lower_image _ _ H)
        by (repeat constructor).
      reflexivity.
    + assert (Hs : firstn 6 s = s).
      { apply firstn_all2. rewrite <- (length_map ascii_to_lower), H.
        simpl. lia. }
      rewrite Hs, (toLowerCase_of_lower_image _ _ H) by (repeat constructor).
      reflexivity.
Qed.

(** *** The two patterns *)

(** X3. Every string [HTTP_PROTOCOLS_REGEX] accepts is accepted by
    [ABSOLUTE_URL_REGEX] and is no platform path. *)
Theorem http_pattern_within_scheme_pattern (s : jsstring) :
  RegExp_test HTTP_PROTOCOLS_REGEX s = true ->
  RegExp_test ABSOLUTE_URL_REGEX s = true /\ isWindowsPath s = false.
Proof.
  intros H. apply HTTP_PROTOCOLS_REGEX_spec in H. split.
  - apply ABSOLUTE_URL_REGEX_spec, http_shape_scheme_prefix; assumption.
  - apply http_shape_not_windows; assumption.
Qed.

(** X4. [HTTP_PROTOCOLS_REGEX] accepts exactly the strings that begin with
    [http:] or [https:] in any ASCII casing: whatever the upper-case table
    of the platform, no other code unit stands in for a letter. *)
Theorem http_pattern_accepts_ascii_casings (s : jsstring) :
  RegExp_test HTTP_PROTOCOLS_REGEX s = http_prefix s.
Proof.
  apply eq_iff_eq_true.
  rewrite HTTP_PROTOCOLS_REGEX_spec, http_prefix_shape. reflexivity.
Qed.

(** *** The classification *)

(** X5. Under the HttpOnly policy the call returns, for every string,
    whether the string begins with [http:] or [https:] in any casing; in
    every cache the program reaches, whatever the arguments of the calls
    before. *)
Theorem http_only_decides_by_prefix (Hok : lower_case_table_ok)
    (s : jsstring) (options : option Options) (cache : Map) :
  reachable cache ->
  documented_policy options = true ->
  call_result (VString s) (js_options options) cache
  = Normal (VBoolean (http_prefix s)).
Proof.
  intros Hr Ho. apply (reachable_http_result Hok); assumption.
Qed.

(** X6. The HttpOnly policy only restricts: a string that is absolute under
    [httpOnly: true] is absolute under [httpOnly: false], in every cache
    the program reaches through calls with documented options. *)
Theorem http_only_restricts (Hok : lower_case_table_ok) (s : jsstring)
    (cache : Map) :
  reachable_documented cache ->
  call_result (VString s) (js_options (with_httpOnly true)) cache
  = Normal (VBoolean true) ->
  call_result (VString s) (js_options (with_httpOnly false)) cache
  = Normal (VBoolean true).
Proof.
  intros Hr. rewrite !(reachable_result _ _ _ Hr). simpl documented_policy.
  rewrite (classify_http Hok), classify_any. intros H.
  assert (Hs : http_shape s)
    by (apply http_prefix_shape; congruence).
  rewrite (http_shape_not_windows _ Hs).
  rewrite (proj2 (ABSOLUTE_URL_REGEX_spec s) (http_shape_scheme_prefix _ Hs)).
  reflexivity.
Qed.

(** X7. A string without a colon, and a string that does not begin with a
    letter (the empty string, a path, a protocol-relative [//host]), is not
    absolute under any policy, in every cache the program reaches,
    whatever the arguments of the calls before. *)
Theorem no_scheme_never_absolute (Hok : lower_case_table_ok) (s : jsstring)
    (options : option Options) (cache : Map) :
  reachable cache ->
  ~ In 58 s \/ (forall l rest, s = l :: rest -> is_letter l = false) ->
  call_result (VString s) (js_options options) cache
  = Normal (VBoolean false).
Proof.
  intros Hr H. apply (reachable_no_scheme_result Hok); [assumption|].
  intros [l [rest [tail [-> [Hl _]]]]]. destruct H as [H|H].
  - apply H. right. apply in_or_app. right. left. reflexivity.
  - rewrite (H l _ eq_refl) in Hl. discriminate.
Qed.

(** *** Calls and the cache *)

Lemma Map_get_app_fresh (k : jsstring) (r : bool) (m : Map) :
  Map_has k m = false -> Map_get k (m ++ [(k, r)]) = Some r.
Proof.
  induction m as [|[k' v] m IH]; simpl.
  - rewrite strict_eq_refl. reflexivity.
  - destruct (strict_eq k' k); simpl; [discriminate | assumption].
Qed.

Lemma Map_get_app_other (k k' : jsstring) (r : bool) (m : Map) :
  k <> k' -> Map_get k (m ++ [(k', r)]) = Map_get k m.
Proof.
  intros Hk. induction m as [|[k'' v] m IH]; simpl.
  - destruct (strict_eq k' k) eqn:E; [|reflexivity].
    apply strict_eq_eq in E. congruence.
  - rewrite IH. reflexivity.
Qed.

Lemma Map_get_tl (k : jsstring) (m : Map) :
  Map_first_key m <> Some k -> Map_get k (tl m) = Map_get k m.
Proof.
  destruct m as [|[k' v] m]; simpl; [reflexivity|].
  intros H. destruct (strict_eq k' k) eqn:E; [|reflexivity].
  apply strict_eq_eq in E. congruence.
Qed.

Lemma Map_get_make_room (k : jsstring) (m : Map) :
  Map_first_key m <> Some k -> Map_get k (make_room m) = Map_get k m.
Proof.
  intros H. unfold make_room.
  destruct (CACHE_MAX_SIZE <=? Map_size m); [apply Map_get_tl; assumption|].
  reflexivity.
Qed.

Lemma stored_after_call (s : jsstring) (options : value)
    (text : jsstring) (h : bool) (cache : Map) :
  read_options options = Normal (text, h) ->
  exists b,
    call_result (VString s) options cache = Normal (VBoolean b)
    /\ Map_get (cacheKey s text) (call_cache (VString s) options cache)
       = Some b.
Proof.
  intros Hread. unfold call_result, call_cache.
  destruct (Map_get (cacheKey s text) cache) as [b|] eqn:Hget.
  - rewrite !(isAbsoluteUrl_read_hit _ _ _ _ _ _ Hread Hget). simpl. eauto.
  - assert (Hmiss : Map_has (cacheKey s text) cache = false)
      by (rewrite Map_has_get, Hget; reflexivity).
    rewrite !(isAbsoluteUrl_read_miss _ _ _ _ _ Hread Hmiss). simpl.
    eexists. split; [reflexivity|].
    apply Map_get_app_fresh, Map_has_make_room; assumption.
Qed.

Lemma second_call (url options : value) (cache : Map) :
  isAbsoluteUrl url options (call_cache url options cache)
  = (call_result url options cache, call_cache url options cache).
Proof.
  destruct url as [| | |t|t|s| |h t|h t]; try reflexivity.
  destruct (read_options options) as [[text h]|e] eqn:Hread.
  - destruct (stored_after_call s options text h cache Hread)
      as [b [Hres Hget]].
    rewrite (isAbsoluteUrl_read_hit _ _ _ _ _ _ Hread Hget), Hres.
    reflexivity.
  - unfold call_result, call_cache.
    rewrite !(isAbsoluteUrl_unreadable _ _ _ _ Hread). reflexivity.
Qed.

Lemma call_cache_idempotent (url options : value) (cache : Map) :
  call_cache url options (call_cache url options cache)
  = call_cache url options cache.
Proof. unfold call_cache at 1. rewrite second_call. reflexivity. Qed.

(** X8. Whatever the arguments and whatever the cache holds, the same call
    made again returns the same completion and leaves the cache as the
    first call left it; and a call on a string that can read its options
    leaves its key in the cache with the boolean it returned. *)
Theorem repeated_call_is_a_hit (url options : value) (cache : Map) :
  isAbsoluteUrl url options (call_cache url options cache)
  = (call_result url options cache, call_cache url options cache)
  /\ (forall s text h,
        url = VString s ->
        read_options options = Normal (text, h) ->
        exists b,
          call_result url options cache = Normal (VBoolean b)
          /\ Map_get (cacheKey s text) (call_cache url options cache)
             = Some b).
Proof.
  split.
  - destruct url as [| | |t|t|s| |h t|h t]; try reflexivity.
    destruct (read_options options) as [[text h]|e] eqn:Hread.
    + destruct (stored_after_call s options text h cache Hread)
        as [b [Hres Hget]].
      rewrite (isAbsoluteUrl_read_hit _ _ _ _ _ _ Hread Hget), Hres.
      reflexivity.
    + unfold call_result, call_cache.
      rewrite !(isAbsoluteUrl_unreadable _ _ _ _ Hread). reflexivity.
  - intros s text h -> Hread. apply (stored_after_call _ _ _ h). assumption.
Qed.

Lemma run_calls_repeat (url options : value) (n : nat) (cache : Map) :
  run_calls (repeat (url, options) (S n)) cache = call_cache url options cache.
Proof.
  induction n as [|n IH]; [reflexivity|].
  change (repeat (url, options) (S (S n)))
    with ((url, options) :: repeat (url, options) (S n)).
  cbn [run_calls]. rewrite <- IH at 2.
  change (repeat (url, options) (S n))
    with ((url, options) :: repeat (url, options) n).
  cbn [run_calls]. rewrite call_cache_idempotent. reflexivity.
Qed.

(** X9. A loop that makes the same call over and over, as the benchmark
    does, leaves the cache the first call left, and every call of the loop
    returns what the first returned; so a sequence of such loops leaves the
    cache of the sequence of their single calls. *)
Theorem repetition_leaves_one_entry :
  (forall url options n cache,
     run_calls (repeat (url, options) (S n)) cache
     = call_cache url options cache
     /\ call_result url options
          (run_calls (repeat (url, options) (S n)) cache)
        = call_result url options cache)
  /\ (forall calls n cache,
        run_calls (flat_map (fun c => repeat c (S n)) calls) cache
        = run_calls calls cache).
Proof.
  split.
  - intros url options n cache. rewrite run_calls_repeat.
    split; [reflexivity|]. unfold call_result at 1.
    rewrite second_call. reflexivity.
  - intros calls n. induction calls as [|[url options] calls IH];
      intros cache; [reflexivity|].
    cbn [flat_map]. rewrite run_calls_app, run_calls_repeat.
    cbn [run_calls]. apply IH.
Qed.

(** *** Options of any shape *)

(** X20. The key is written from the text of [httpOnly] and the policy is
    taken from its truth, and the two can disagree: [httpOnly: "false"]
    is a string, so truthy. After a call on a string with it (a miss), the
    call on the same string with [httpOnly: false] finds the entry and
    returns the HttpOnly answer, whether the string begins with [http:]
    or [https:]; on the empty cache it returns whether the string has a
    scheme and is not a platform path. *)
Theorem text_false_poisons_policy_false (Hok : lower_case_table_ok)
    (s : jsstring) (cache : Map) :
  Map_has (cacheKey s (lit "false")) cache = false ->
  call_result (VString s) (js_options (with_httpOnly false))
    (call_cache (VString s) (object_with (VString (lit "false"))) cache)
  = Normal (VBoolean (http_prefix s))
  /\ call_result (VString s) (js_options (with_httpOnly false)) []
     = Normal (VBoolean (negb (isWindowsPath s)
                         && RegExp_test ABSOLUTE_URL_REGEX s)).
Proof.
  intros Hmiss. split.
  - unfold call_result, call_cache.
    rewrite (isAbsoluteUrl_read_miss s (object_with (VString (lit "false")))
               cache (lit "false") true eq_refl Hmiss).
    cbn [snd].
    rewrite (isAbsoluteUrl_read_hit s (js_options (with_httpOnly false))
               _ (lit "false") false (classify s true) eq_refl).
    + rewrite (classify_http Hok). reflexivity.
    + apply Map_get_app_fresh, Map_has_make_room. assumption.
  - rewrite (reachable_result _ _ _ documented_init).
    simpl documented_policy. rewrite classify_any. reflexivity.
Qed.

(** X21. How a call on a string reads its options, whatever the string.
    Options left out, an object without [httpOnly] and a primitive passed
    for the options all stand for [httpOnly: true]. An [httpOnly] that is
    given, [null] too, ends the key with its text and sets the HttpOnly
    policy when it is truthy: [null], [0], [NaN], [0n] and the empty
    string are not, every other number, string and object is. Options that
    are [null], and an [httpOnly] that is a symbol or an object whose
    conversion throws, make the call throw and leave the cache alone. *)
Theorem options_read_by_text_and_truth :
  reads_as VUndefined (lit "true") true
  /\ (forall text, reads_as (VObject VUndefined text) (lit "true") true)
  /\ (forall text, reads_as (VFunction VUndefined text) (lit "true") true)
  /\ (forall b, reads_as (VBoolean b) (lit "true") true)
  /\ (forall n, reads_as (VNumber n) (lit "true") true)
  /\ (forall n, reads_as (VBigInt n) (lit "true") true)
  /\ (forall t, reads_as (VString t) (lit "true") true)
  /\ reads_as VSymbol (lit "true") true
  /\ reads_as (object_with (VBoolean true)) (lit "true") true
  /\ reads_as (object_with (VBoolean false)) (lit "false") false
  /\ (forall text,
        reads_as (VFunction (VBoolean false) text) (lit "false") false)
  /\ reads_as (object_with VNull) (lit "null") false
  /\ reads_as (object_with (VNumber (lit "0"))) (lit "0") false
  /\ reads_as (object_with (VNumber (lit "NaN"))) (lit "NaN") false
  /\ (forall n,
        n <> lit "0" -> n <> lit "NaN" ->
        reads_as (object_with (VNumber n)) n true)
  /\ reads_as (object_with (VBigInt (lit "0"))) (lit "0") false
  /\ (forall n, n <> lit "0" -> reads_as (object_with (VBigInt n)) n true)
  /\ reads_as (object_with (VString [])) [] false
  /\ (forall t, t <> [] -> reads_as (object_with (VString t)) t true)
  /\ (forall v text,
        reads_as (object_with (VObject v (Normal text))) text true)
  /\ (forall v text,
        reads_as (object_with (VFunction v (Normal text))) text true)
  /\ (forall s cache,
        (exists e, isAbsoluteUrl (VString s) VNull cache = (Throw e, cache))
        /\ (exists e,
              isAbsoluteUrl (VString s) (object_with VSymbol) cache
              = (Throw e, cache))
        /\ (forall v e,
              isAbsoluteUrl (VString s) (object_with (VObject v (Throw e)))
                cache
              = (Throw e, cache))).
Proof.
  assert (Hmiss : forall options text h,
             read_options options = Normal (text, h) ->
             reads_as options text h).
  { intros options text h Hread s.
    rewrite (isAbsoluteUrl_read_miss s options [] text h Hread eq_refl).
    reflexivity. }
  assert (Hneq : forall a b, a <> b -> strict_eq a b = false)
    by (intros a b; apply strict_eq_neq).
  repeat match goal with |- _ /\ _ => split end;
    try (intros; apply Hmiss; reflexivity).
  - intros n H0 HNaN. apply Hmiss. unfold read_options. simpl.
    rewrite (Hneq _ _ H0), (Hneq _ _ HNaN). reflexivity.
  - intros n H0. apply Hmiss. unfold read_options. simpl.
    rewrite (Hneq _ _ H0). reflexivity.
  - intros t Ht. apply Hmiss. unfold read_options. simpl.
    rewrite (Hneq _ _ Ht). reflexivity.
  - intros s cache. split; [|split].
    + eexists. reflexivity.
    + eexists. reflexivity.
    + intros v e. reflexivity.
Qed.

(** *** What the cache holds *)

Lemma NoDup_snoc {A : Type} (l : list A) (x : A) :
  NoDup l -> ~ In x l -> NoDup (l ++ [x]).
Proof.
  induction l as [|y l IH]; simpl; intros Hnd Hx.
  - constructor; [intros [] | constructor].
  - inversion Hnd as [|y' l' Hy Hl]; subst. constructor.
    + intros Hin. apply in_app_or in Hin as [Hin|[Hin|[]]]; [auto|].
      apply Hx. left. symmetry. assumption.
    + apply IH; [assumption|]. intros Hin. apply Hx. right; assumption.
Qed.

Lemma NoDup_keys_make_room (cache : Map) :
  NoDup (map fst cache) -> NoDup (map fst (make_room cache)).
Proof.
  unfold make_room. destruct (CACHE_MAX_SIZE <=? Map_size cache); [|auto].
  destruct cache as [|e cache]; simpl; [auto|].
  intros H. inversion H; assumption.
Qed.

Lemma NoDup_keys_call (url options : value) (cache : Map) :
  NoDup (map fst cache) -> NoDup (map fst (call_cache url options cache)).
Proof.
  intros Hnd. unfold call_cache.
  destruct (call_cases url options cache)
    as [[e ->]|[s [text [h [_ [_ [[b [_ ->]]|[Hmiss ->]]]]]]]];
    try exact Hnd.
  simpl. rewrite map_app. apply NoDup_snoc.
  - apply NoDup_keys_make_room; assumption.
  - intros Hin. apply Map_has_keys in Hin.
    rewrite Map_has_make_room in Hin by assumption. discriminate.
Qed.

(** X10. In every cache the program reaches, with calls of any arguments,
    no two entries have the same key, and every entry is the one that some
    call on a string stores on the empty cache. When every call so far had
    options of the documented shape, every key is moreover the key of a
    string and a boolean, and the boolean stored under the key of a string
    and a policy is what a call on them returns on the empty cache. *)
Theorem reachable_cache_invariant (cache : Map) :
  reachable cache ->
  NoDup (map fst cache)
  /\ (forall k b,
        In (k, b) cache ->
        exists s options,
          isAbsoluteUrl (VString s) options []
          = (Normal (VBoolean b), [(k, b)]))
  /\ (reachable_documented cache ->
      (forall k b,
         In (k, b) cache -> exists s h, k = cacheKey s (boolean_text h))
      /\ (forall s h b,
            Map_get (cacheKey s (boolean_text h)) cache = Some b ->
            call_result (VString s) (js_options (with_httpOnly h)) []
            = Normal (VBoolean b))).
Proof.
  intros Hr. split; [|split].
  - induction Hr as [|url options cache _ IH]; [constructor|].
    apply NoDup_keys_call; assumption.
  - induction Hr as [|url options cache _ IH]; [intros k b []|].
    apply stored_by_a_call_step; assumption.
  - intros Hd. split.
    + intros k b Hin.
      destruct (reachable_coherent _ Hd _ _ Hin) as [s [h [Hk _]]]. eauto.
    + intros s h b Hget.
      rewrite (reachable_result _ _ _ documented_init).
      simpl documented_policy.
      apply Map_get_In in Hget.
      destruct (reachable_coherent _ Hd _ _ Hget) as [s' [h' [Hk Hb]]].
      apply cacheKey_inj in Hk as [<- <-]. rewrite Hb. reflexivity.
Qed.

(** X11. A call leaves every other entry alone, the oldest apart: a key
    that is neither the key of the call nor the first key of the cache has
    after the call the value it had before, whatever the arguments. *)
Theorem call_touches_own_and_oldest (url options : value) (cache : Map)
    (k : jsstring) :
  (forall s text h,
     url = VString s -> read_options options = Normal (text, h) ->
     k <> cacheKey s text) ->
  Map_first_key cache <> Some k ->
  Map_get k (call_cache url options cache) = Map_get k cache.
Proof.
  intros Hk Hfirst. unfold call_cache.
  destruct (call_cases url options cache)
    as [[e ->]|[s [text [h [Hurl [Hread [[b [_ ->]]|[_ ->]]]]]]]];
    try reflexivity.
  simpl. rewrite Map_get_app_other by (apply (Hk s text h); assumption).
  apply Map_get_make_room; assumption.
Qed.

(** X12. [evictOldestCacheEntry] never throws. On the empty cache it does
    nothing; otherwise it removes the first entry and no other: when the
    first key occurs once, it is no longer found, and every other key
    keeps its value. *)
Theorem evict_removes_the_oldest :
  evictOldestCacheEntry [] = (Normal tt, [])
  /\ (forall k b rest,
        evictOldestCacheEntry ((k, b) :: rest) = (Normal tt, rest)
        /\ (Map_has k rest = false ->
            forall k',
              Map_get k' rest
              = if strict_eq k k' then None
                else Map_get k' ((k, b) :: rest))).
Proof.
  split; [reflexivity|]. intros k b rest.
  split; [apply evictOldestCacheEntry_tl|].
  intros Hk k'. simpl. destruct (strict_eq k k') eqn:E; [|reflexivity].
  apply strict_eq_eq in E. subst k'.
  rewrite Map_has_get in Hk. destruct (Map_get k rest); [discriminate|].
  reflexivity.
Qed.

(** X13. A call never shrinks a cache within its capacity and adds at most
    one entry; a call that throws or hits adds none. So the cache holds at
    most as many entries as calls were made. *)
Theorem cache_grows_by_at_most_one :
  (forall url options cache,
     Map_size cache <= CACHE_MAX_SIZE ->
     Map_size cache <= Map_size (call_cache url options cache)
     /\ Map_size (call_cache url options cache) <= Map_size cache + 1)
  /\ (forall calls,
        Map_size (run_calls calls []) <= N.of_nat (List.length calls)).
Proof.
  assert (Hstep : forall url options cache,
             Map_size (call_cache url options cache) <= Map_size cache + 1
             /\ (Map_size cache <= CACHE_MAX_SIZE ->
                 Map_size cache <= Map_size (call_cache url options cache))).
  { intros url options cache. unfold call_cache.
    destruct (call_cases url options cache)
      as [[e ->]|[s [text [h [_ [_ [[b [_ ->]]|[_ ->]]]]]]]];
      try (simpl; lia).
    simpl. rewrite Map_size_app. unfold make_room.
    destruct (N.leb_spec CACHE_MAX_SIZE (Map_size cache)).
    - rewrite Map_size_tl. unfold Map_size, CACHE_MAX_SIZE in *. simpl. lia.
    - unfold Map_size in *. simpl. lia. }
  split.
  - intros url options cache Hsize.
    destruct (Hstep url options cache). auto.
  - assert (Hrun : forall calls cache,
               Map_size (run_calls calls cache)
               <= Map_size cache + N.of_nat (List.length calls)).
    { induction calls as [|[url options] calls IH]; intros cache.
      - simpl. lia.
      - cbn [run_calls List.length].
        specialize (IH (call_cache url options cache)).
        destruct (Hstep url options cache). lia. }
    intros calls. specialize (Hrun calls []). unfold Map_size in *.
    simpl in *. lia.
Qed.

(** X14. Reading an entry does not protect it: when the cache is full, a
    hit on its oldest key followed by a miss on a new key evicts the key
    that was just read. Eviction is by insertion, not by use. *)
Theorem read_does_not_protect_from_eviction (s0 s : jsstring)
    (o0 o : option Options) (cache : Map) :
  Map_first_key cache = Some (call_key (s0, o0)) ->
  Map_has (call_key (s0, o0)) (tl cache) = false ->
  CACHE_MAX_SIZE <= Map_size cache ->
  Map_has (call_key (s, o)) cache = false ->
  call_cache (VString s0) (js_options o0) cache = cache
  /\ Map_has (call_key (s0, o0))
       (run_calls [(VString s0, js_options o0); (VString s, js_options o)]
          cache) = false.
Proof.
  unfold call_key. cbn [fst snd]. intros Hfirst Htl Hfull Hmiss.
  destruct cache as [|[k0 b0] rest]; [discriminate|].
  simpl in Hfirst, Htl. injection Hfirst as ->.
  assert (Hget : Map_get (documented_key s0 o0)
                   ((documented_key s0 o0, b0) :: rest)
                 = Some b0)
    by (simpl; rewrite strict_eq_refl; reflexivity).
  assert (Hhit : call_cache (VString s0) (js_options o0)
                   ((documented_key s0 o0, b0) :: rest)
                 = (documented_key s0 o0, b0) :: rest)
    by (unfold call_cache; rewrite (isAbsoluteUrl_hit _ _ _ _ Hget);
        reflexivity).
  split; [exact Hhit|].
  cbn [run_calls]. rewrite Hhit. unfold call_cache.
  rewrite (isAbsoluteUrl_miss _ _ _ Hmiss). cbn [snd].
  unfold make_room. apply N.leb_le in Hfull. rewrite Hfull. cbn [tl].
  destruct (Map_has _ (rest ++ [entry_of s o])) eqn:E; [|reflexivity].
  apply Map_has_keys in E. rewrite map_app in E.
  apply in_app_or in E as [E|[E|[]]].
  - apply Map_has_keys in E. congruence.
  - simpl in E. simpl in Hmiss. rewrite <- E, strict_eq_refl in Hmiss.
    discriminate.
Qed.

(** X15. From the empty cache, calls on strings with distinct keys leave
    the entries of the last [CACHE_MAX_SIZE] calls and no other, in the
    order of the calls, each with the key and the classification of its
    call. *)
Theorem distinct_calls_leave_latest (l : list (jsstring * option Options)) :
  NoDup (map call_key l) ->
  run_calls (string_calls l) []
  = map (fun c => entry_of (fst c) (snd c))
      (skipn (List.length l - N.to_nat CACHE_MAX_SIZE) l)
  /\ Map_size (run_calls (string_calls l) [])
     = N.min (N.of_nat (List.length l)) CACHE_MAX_SIZE.
Proof.
  intros Hnd. rewrite (run_distinct_calls _ Hnd). split; [reflexivity|].
  unfold Map_size. rewrite length_map, length_skipn.
  change (N.to_nat CACHE_MAX_SIZE) with 1000%nat. unfold CACHE_MAX_SIZE. lia.
Qed.

(** *** The classification and the shape of the string *)

Lemma isWindowsPath_app (s t : jsstring) :
  (3 <= List.length s)%nat -> isWindowsPath (s ++ t) = isWindowsPath s.
Proof.
  destruct s as [|a [|b [|c s]]]; simpl; try lia. intros _.
  change (a :: b :: c :: s ++ t) with (a :: b :: c :: (s ++ t)).
  rewrite !isWindowsPath_cons3. reflexivity.
Qed.

(** X16. Absoluteness is decided at the start of the string: a string of
    at least three code units that is absolute under a policy stays
    absolute, under that policy, whatever is appended to it; in every
    cache the program reaches through calls with documented options. *)
Theorem absolute_closed_under_extension (Hok : lower_case_table_ok)
    (s t : jsstring) (options : option Options) (cache : Map) :
  reachable_documented cache ->
  (3 <= List.length s)%nat ->
  call_result (VString s) (js_options options) cache
  = Normal (VBoolean true) ->
  call_result (VString (s ++ t)) (js_options options) cache
  = Normal (VBoolean true).
Proof.
  intros Hr Hlen. rewrite !(reachable_result _ _ _ Hr).
  destruct (documented_policy options).
  - rewrite !(classify_http Hok). intros [= H]. do 2 f_equal.
    apply http_prefix_shape, http_shape_app, http_prefix_shape. assumption.
  - rewrite !classify_any, isWindowsPath_app by assumption.
    intros [= H]. do 2 f_equal.
    apply andb_true_iff in H as [Hw Ha]. rewrite Hw.
    apply ABSOLUTE_URL_REGEX_spec in Ha.
    apply (scheme_prefix_app s t), ABSOLUTE_URL_REGEX_spec in Ha.
    rewrite Ha. reflexivity.
Qed.

Lemma lower_idempotent (u : N) :
  ascii_to_lower (ascii_to_lower u) = ascii_to_lower u.
Proof.
  unfold ascii_to_lower.
  destruct (N.leb_spec 65 u), (N.leb_spec u 90); simpl;
    split_comparisons; lia.
Qed.

Lemma is_letter_lower (u : N) : is_letter (ascii_to_lower u) = is_letter u.
Proof.
  unfold is_letter, ascii_to_lower.
  destruct (N.leb_spec 65 u), (N.leb_spec u 90); simpl;
    split_comparisons; try reflexivity; lia.
Qed.

Lemma is_digit_lower (u : N) : is_digit (ascii_to_lower u) = is_digit u.
Proof.
  unfold is_digit, ascii_to_lower.
  destruct (N.leb_spec 65 u), (N.leb_spec u 90); simpl;
    split_comparisons; try reflexivity; lia.
Qed.

Lemma eqb_lower (u n : N) :
  n < 65 \/ 90 < n < 97 \/ 122 < n -> (ascii_to_lower u =? n) = (u =? n).
Proof.
  intros Hn. unfold ascii_to_lower.
  destruct (N.leb_spec 65 u), (N.leb_spec u 90); simpl;
    split_comparisons; try reflexivity; lia.
Qed.

Lemma is_scheme_char_lower (u : N) :
  is_scheme_char (ascii_to_lower u) = is_scheme_char u.
Proof.
  unfold is_scheme_char. rewrite is_letter_lower, is_digit_lower.
  rewrite (eqb_lower u 43), (eqb_lower u 45), (eqb_lower u 46) by lia.
  reflexivity.
Qed.

Lemma isWindowsPath_lower (s : jsstring) :
  isWindowsPath (map ascii_to_lower s) = isWindowsPath s.
Proof.
  destruct s as [|a [|b [|c t]]]; try reflexivity.
  cbn [map]. rewrite !isWindowsPath_cons3, is_letter_lower.
  rewrite (eqb_lower b 58), (eqb_lower c 92) by lia.
  reflexivity.
Qed.

Lemma forallb_scheme_char_lower (w : jsstring) :
  forallb is_scheme_char (map ascii_to_lower w) = forallb is_scheme_char w.
Proof.
  induction w as [|u w IH]; [reflexivity|].
  cbn [map forallb]. rewrite IH, is_scheme_char_lower. reflexivity.
Qed.

Lemma scheme_prefix_lower (s : jsstring) :
  scheme_prefix (map ascii_to_lower s) <-> scheme_prefix s.
Proof.
  split.
  - intros [l [rest [tail [E [Hl Hr]]]]].
    destruct s as [|l0 s]; [discriminate|]. cbn [map] in E.
    injection E as El E.
    apply map_eq_app in E as [rest0 [s2 [-> [Er E]]]].
    destruct s2 as [|c0 tail0]; [discriminate|]. cbn [map] in E.
    injection E as Ec Et.
    apply (proj1 (lower_eq_58 c0)) in Ec. subst c0.
    exists l0, rest0, tail0. repeat split.
    + rewrite <- is_letter_lower, El. assumption.
    + rewrite <- forallb_scheme_char_lower, Er. assumption.
  - intros [l [rest [tail [-> [Hl Hr]]]]].
    exists (ascii_to_lower l), (map ascii_to_lower rest),
      (map ascii_to_lower tail). repeat split.
    + cbn [map]. rewrite map_app. reflexivity.
    + rewrite is_letter_lower. assumption.
    + rewrite forallb_scheme_char_lower. assumption.
Qed.

Lemma http_prefix_lower (s : jsstring) :
  http_prefix (map ascii_to_lower s) = http_prefix s.
Proof.
  unfold http_prefix, eq_ignore_case.
  rewrite !firstn_map, !map_map.
  rewrite !(map_ext _ _ lower_idempotent). reflexivity.
Qed.

Lemma classify_lower (Hok : lower_case_table_ok) (s : jsstring) (h : bool) :
  classify (map ascii_to_lower s) h = classify s h.
Proof.
  destruct h.
  - rewrite !(classify_http Hok). apply http_prefix_lower.
  - rewrite !classify_any, isWindowsPath_lower. f_equal.
    apply eq_iff_eq_true. rewrite !ABSOLUTE_URL_REGEX_spec.
    apply scheme_prefix_lower.
Qed.

(** X17. The classification ignores the case of ASCII letters anywhere in
    the string: two strings that are equal up to ASCII case get the same
    answer under every policy, in every cache the program reaches through
    calls with documented options. *)
Theorem classification_ignores_case (Hok : lower_case_table_ok)
    (s s' : jsstring) (options : option Options) (cache : Map) :
  reachable_documented cache ->
  eq_ignore_case s s' = true ->
  call_result (VString s) (js_options options) cache
  = call_result (VString s') (js_options options) cache.
Proof.
  intros Hr E. apply strict_eq_eq in E.
  rewrite !(reachable_result _ _ _ Hr).
  rewrite <- (classify_lower Hok s), <- (classify_lower Hok s'), E.
  reflexivity.
Qed.

Lemma scheme_char_ascii (u : N) : is_scheme_char u = true -> u < 128.
Proof.
  unfold is_scheme_char, is_letter, is_digit.
  destruct (N.ltb_spec u 128) as [H|H]; [auto|].
  split_comparisons; try discriminate; lia.
Qed.

(** X18. A code unit outside ASCII before the first colon (a letter of
    another script, a look-alike of an ASCII letter) makes the string not
    absolute under any policy, in every cache the program reaches,
    whatever the arguments of the calls before. *)
Theorem non_ascii_scheme_never_absolute (Hok : lower_case_table_ok)
    (s : jsstring) (u : N) (options : option Options) (cache : Map) :
  reachable cache ->
  In u (scheme_token s) ->
  128 <= u ->
  call_result (VString s) (js_options options) cache = Normal (VBoolean false).
Proof.
  intros Hr Hin Hu. apply (reachable_no_scheme_result Hok); [assumption|].
  intros [l [rest [tail [-> [Hl Hrest]]]]].
  change (l :: rest ++ 58 :: tail) with ((l :: rest) ++ 58 :: tail) in Hin.
  assert (Hall : forallb is_scheme_char (l :: rest) = true)
    by (simpl; rewrite (letter_scheme_char _ Hl); assumption).
  rewrite (scheme_token_app _ _ Hall) in Hin.
  rewrite forallb_forall in Hall.
  apply Hall, scheme_char_ascii in Hin. lia.
Qed.

(** X19. The test [url.length >= 5] before the shortcut excludes nothing
    the shortcut would accept: [hasCommonHttpProtocol] holds of no string
    shorter than five code units. *)
Theorem hasCommonHttpProtocol_needs_five (Hok : lower_case_table_ok)
    (s : jsstring) :
  hasCommonHttpProtocol s = true -> (5 <=? js_length s) = true.
Proof.
  intros H. apply (hasCommonHttpProtocol_sound Hok) in H.
  destruct H as [a [b [c [d [rest [-> [_ [_ [_ [_ Hrest]]]]]]]]]].
  apply N.leb_le. unfold js_length.
  destruct Hrest as [[t ->]|[e [t [-> _]]]]; simpl List.length; lia.
Qed.

End Unicode.

(** ** The model at work

    The statements above hold for every case table; here they are applied
    with the table that leaves non-ASCII code units alone. *)

Lemma lower_identity_ok : lower_case_table_ok lower_identity.
Proof.
  intros before u after Hu. exists u, []. split; [reflexivity|].
  simpl. lia.
Qed.

(** The concrete cases of the specification, on the empty cache. *)
Example concrete_cases :
  call_result lower_identity upper_identity
    (VString (lit "http://example.com")) VUndefined []
  = Normal (VBoolean true)
  /\ call_result lower_identity upper_identity
       (VString (lit "ftp://example.com")) VUndefined []
     = Normal (VBoolean false)
  /\ call_result lower_identity upper_identity
       (VString (lit "ftp://example.com")) (js_options (with_httpOnly false)) []
     = Normal (VBoolean true)
  /\ call_result lower_identity upper_identity
       (VString (lit "/path/to/file")) VUndefined [] = Normal (VBoolean false)
  /\ call_result lower_identity upper_identity
       (VString (lit "")) VUndefined [] = Normal (VBoolean false)
  /\ call_result lower_identity upper_identity
       (VString (lit "HTTP://x")) VUndefined [] = Normal (VBoolean true)
  /\ call_result lower_identity upper_identity
       (VString (lit "Http://x")) VUndefined [] = Normal (VBoolean true)
  /\ call_result lower_identity upper_identity
       (VString (lit "hTtPs://x")) VUndefined [] = Normal (VBoolean true)
  /\ call_result lower_identity upper_identity
       (VString (lit "file:///etc/hosts")) (js_options (with_httpOnly true)) []
     = Normal (VBoolean false)
  /\ call_result lower_identity upper_identity
       (VString (lit "c:\temp")) (js_options (with_httpOnly false)) []
     = Normal (VBoolean false).
Proof. repeat split; vm_compute; reflexivity. Qed.

(** Options outside the documented shape: [httpOnly: 0] and
    [httpOnly: null] are falsy and allow any scheme, under the keys
    [ftp://a|0] and [ftp://a|null]; [httpOnly: "no"] is truthy; a number
    passed for the options has no [httpOnly], which is then [true]; and an
    [httpOnly] that is a symbol cannot be written into the key. *)
Example options_of_other_shapes :
  isAbsoluteUrl lower_identity upper_identity (VString (lit "ftp://a"))
    (VObject (VNumber (lit "0")) (Normal (lit "[object Object]"))) []
  = (Normal (VBoolean true), [(lit "ftp://a|0", true)])
  /\ isAbsoluteUrl lower_identity upper_identity (VString (lit "ftp://a"))
       (VObject VNull (Normal (lit "[object Object]"))) []
     = (Normal (VBoolean true), [(lit "ftp://a|null", true)])
  /\ isAbsoluteUrl lower_identity upper_identity (VString (lit "ftp://a"))
       (VObject (VString (lit "no")) (Normal (lit "[object Object]"))) []
     = (Normal (VBoolean false), [(lit "ftp://a|no", false)])
  /\ isAbsoluteUrl lower_identity upper_identity (VString (lit "ftp://a"))
       (VNumber (lit "5")) []
     = (Normal (VBoolean false), [(lit "ftp://a|true", false)])
  /\ isAbsoluteUrl lower_identity upper_identity (VString (lit "ftp://a"))
       (VObject VSymbol (Normal (lit "[object Object]"))) []
     = (Throw (TypeError "Cannot convert a Symbol value to a string"), []).
Proof. repeat split; vm_compute; reflexivity. Qed.

(** The string comparison at the end of [hasCommonHttpProtocol] compares six
    code units with the five of [http:]: a mixed-case [Http://] is left to
    the patterns, which accept it. *)
Remark mixed_case_http_takes_the_patterns :
  hasCommonHttpProtocol lower_identity (lit "Http://x") = false
  /\ call_result lower_identity upper_identity
       (VString (lit "Http://x")) VUndefined [] = Normal (VBoolean true).
Proof. split; vm_compute; reflexivity. Qed.

(** C1, as stated, fails: [C:\] matches the scheme-prefix grammar (scheme
    [C]) and yields [false] under [httpOnly: false]. *)
Lemma scheme_grammar_fails_on_drive_path :
  scheme_prefix [67; 58; 92]
  /\ call_result lower_identity upper_identity
       (VString [67; 58; 92]) (js_options (with_httpOnly false)) []
     = Normal (VBoolean false).
Proof.
  split; [|vm_compute; reflexivity].
  exists 67, [], [92]. repeat split.
Qed.

Lemma scheme_grammar_conformance_witness :
  call_result lower_identity upper_identity
    (VString (lit "ftp://example.com")) (js_options (with_httpOnly false)) []
  = Normal (VBoolean true)
  /\ call_result lower_identity upper_identity
       (VString (lit "/path/to/file")) (js_options (with_httpOnly false)) []
     = Normal (VBoolean false).
Proof.
  split.
  - apply (proj1 (scheme_grammar_conformance lower_identity upper_identity
                    (lit "ftp://example.com") []
                    (documented_init lower_identity upper_identity))).
    + exists 102, [116; 112], (lit "//example.com"). repeat split.
    + intros [l [rest [E _]]]. discriminate E.
  - apply (proj2 (scheme_grammar_conformance lower_identity upper_identity
                    (lit "/path/to/file") []
                    (documented_init lower_identity upper_identity))).
    intros [l [rest [tail [E [Hl _]]]]].
    injection E as <- _. discriminate Hl.
Defined.

Lemma http_only_rule_witness :
  call_result lower_identity upper_identity
    (VString (lit "ftp:|x")) VUndefined
    (run_calls lower_identity upper_identity
       [(VString (lit "ftp:"), object_with (VString (lit "x|true")))] [])
  = Normal (VBoolean false).
Proof.
  apply (http_only_rule lower_identity upper_identity lower_identity_ok
           (lit "ftp:|x") None).
  - apply run_calls_reachable, reachable_init.
  - exists 102, (lit "tp"), (lit "|x"). repeat split.
  - reflexivity.
Defined.

Lemma platform_path_precedence_witness :
  scheme_prefix (lit "C:\a|b")
  /\ call_result lower_identity upper_identity
       (VString (lit "C:\a|b")) (js_options (with_httpOnly false))
       (run_calls lower_identity upper_identity
          [(VString (lit "C:\a"), object_with (VString (lit "b|false")))] [])
     = Normal (VBoolean false).
Proof.
  apply (platform_path_precedence lower_identity upper_identity
           67 (lit "a|b") (with_httpOnly false)).
  - apply run_calls_reachable, reachable_init.
  - reflexivity.
Defined.

Lemma forward_slash_drive_witness :
  isWindowsPath (lit "c:/windows") = false
  /\ call_result lower_identity upper_identity
       (VString (lit "c:/windows")) (js_options (with_httpOnly false)) []
     = Normal (VBoolean true)
  /\ call_result lower_identity upper_identity
       (VString (lit "c:/windows")) (js_options (with_httpOnly true)) []
     = Normal (VBoolean false).
Proof.
  apply (forward_slash_drive lower_identity upper_identity []).
  apply documented_init.
Defined.

Lemma fast_path_equivalent_witness :
  isAbsoluteUrl lower_identity upper_identity
    (VString (lit "https://example.com")) VUndefined []
  = isAbsoluteUrl_reference upper_identity
      (VString (lit "https://example.com")) VUndefined [].
Proof.
  apply (proj1 (fast_path_equivalent lower_identity upper_identity
                  lower_identity_ok (lit "https://example.com") None [])).
Defined.

(** C4, as stated, fails: after the call
    [isAbsoluteUrl("ftp://a", {httpOnly: "false"})], whose [httpOnly] is a
    truthy string, the key [ftp://a|false] holds [false], and
    [isAbsoluteUrl("ftp://a", {httpOnly: false})] returns it, where on the
    empty cache it returns [true]. *)
Lemma cache_poisoned_by_string_httpOnly :
  call_result lower_identity upper_identity
    (VString (lit "ftp://a")) (js_options (with_httpOnly false)) []
  = Normal (VBoolean true)
  /\ call_result lower_identity upper_identity
       (VString (lit "ftp://a")) (js_options (with_httpOnly false))
       (run_calls lower_identity upper_identity
          [(VString (lit "ftp://a"),
            VObject (VString (lit "false")) (Normal (lit "[object Object]")))]
          [])
     = Normal (VBoolean false).
Proof. split; vm_compute; reflexivity. Qed.

Lemma cache_transparent_witness :
  call_result lower_identity upper_identity
    (VString (lit "ftp://a")) (js_options (with_httpOnly false))
    (run_calls lower_identity upper_identity
       (documented_calls
          [(VString (lit "ftp://a"), None);
           (VNull, with_httpOnly false);
           (VString (lit "ftp://a"), with_httpOnly true)]) [])
  = call_result lower_identity upper_identity
      (VString (lit "ftp://a")) (js_options (with_httpOnly false)) [].
Proof.
  apply (proj1 (cache_transparent lower_identity upper_identity
                  [(VString (lit "ftp://a"), None);
                   (VNull, with_httpOnly false);
                   (VString (lit "ftp://a"), with_httpOnly true)]
                  (lit "ftp://a") (with_httpOnly false))).
Defined.

Lemma cache_hit_no_mutation_witness :
  exists b,
    Map_get (cacheKey (lit "a:") (lit "false"))
      [(cacheKey (lit "a:") (lit "false"), false)]
    = Some b
    /\ isAbsoluteUrl lower_identity upper_identity (VString (lit "a:"))
         (VObject (VString (lit "false")) (Normal (lit "[object Object]")))
         [(cacheKey (lit "a:") (lit "false"), false)]
       = (Normal (VBoolean b), [(cacheKey (lit "a:") (lit "false"), false)]).
Proof.
  apply (cache_hit_no_mutation lower_identity upper_identity
           (lit "a:")
           (VObject (VString (lit "false")) (Normal (lit "[object Object]")))
           (lit "false") true
           [(cacheKey (lit "a:") (lit "false"), false)]).
  - reflexivity.
  - reflexivity.
Defined.

Lemma failing_call_preserves_cache_witness :
  call_cache lower_identity upper_identity (VString (lit "a:")) VNull
    [(lit "a:|true", false)]
  = [(lit "a:|true", false)]
  /\ call_cache lower_identity upper_identity VNull VUndefined
       [(lit "a:|true", false)]
     = [(lit "a:|true", false)].
Proof.
  split.
  - apply (proj1 (failing_call_preserves_cache lower_identity upper_identity
                    (VString (lit "a:")) VNull [(lit "a:|true", false)]
                    (TypeError
                       "Cannot destructure property 'httpOnly' of 'options' as it is null.")
                    eq_refl)).
  - apply (proj1 (failing_call_preserves_cache lower_identity upper_identity
                    VNull VUndefined [(lit "a:|true", false)]
                    (TypeError "Expected a `string`, got `object`")
                    eq_refl)).
Defined.

(** C6, as stated, fails: a call on a string with [null] for its options
    throws, at the destructuring of the options. *)
Lemma string_with_null_options_throws :
  exists message,
    call_result lower_identity upper_identity
      (VString (lit "http://example.com")) VNull []
    = Throw (TypeError message).
Proof. eexists. vm_compute. reflexivity. Qed.

Lemma type_error_iff_not_string_witness :
  call_result lower_identity upper_identity (VNumber (lit "42")) VNull []
  = Throw (TypeError "Expected a `string`, got `number`")
  /\ exists b,
       call_result lower_identity upper_identity (VString (lit "a:"))
         (VObject (VNumber (lit "0")) (Normal (lit "[object Object]"))) []
       = Normal (VBoolean b).
Proof.
  destruct (type_error_iff_not_string lower_identity upper_identity)
    as [Hother [Hstring _]].
  split.
  - apply Hother.
  - apply (Hstring (lit "a:") _ (lit "0") false). reflexivity.
Defined.

Lemma cache_bound_witness :
  Map_has (call_key ([0], None))
    (run_calls lower_identity upper_identity
       (string_calls (([0], None) :: distinct_urls 1 1000)) [])
  = false.
Proof.
  apply (proj2 (proj2 (proj2 (cache_bound lower_identity upper_identity)))).
  - apply distinct_keys_NoDup. vm_compute. reflexivity.
  - unfold distinct_urls, CACHE_MAX_SIZE.
    rewrite length_map, length_seq. lia.
Defined.

(** *** The further properties at work *)

Lemma hasCommonHttpProtocol_accepts_witness :
  hasCommonHttpProtocol lower_identity (lit "HtTpS://example.com") = true.
Proof.
  apply (proj2 (hasCommonHttpProtocol_accepts lower_identity
                  lower_identity_ok (lit "HtTpS://example.com"))).
  right. right. left. reflexivity.
Defined.

Lemma http_pattern_within_scheme_pattern_witness :
  RegExp_test upper_identity ABSOLUTE_URL_REGEX (lit "hTTp://a") = true
  /\ isWindowsPath (lit "hTTp://a") = false.
Proof.
  apply (http_pattern_within_scheme_pattern upper_identity (lit "hTTp://a")).
  reflexivity.
Defined.

Lemma http_only_decides_by_prefix_witness :
  call_result lower_identity upper_identity
    (VString (lit "httpx://a")) VUndefined []
  = Normal (VBoolean (http_prefix (lit "httpx://a"))).
Proof.
  apply (http_only_decides_by_prefix lower_identity upper_identity
           lower_identity_ok (lit "httpx://a") None []).
  - apply reachable_init.
  - reflexivity.
Defined.

Lemma http_only_restricts_witness :
  call_result lower_identity upper_identity
    (VString (lit "http://example.com")) (js_options (with_httpOnly false)) []
  = Normal (VBoolean true).
Proof.
  apply (http_only_restricts lower_identity upper_identity
           lower_identity_ok (lit "http://example.com") []).
  - apply documented_init.
  - reflexivity.
Defined.

Lemma no_scheme_never_absolute_witness :
  call_result lower_identity upper_identity
    (VString (lit "//example.com/a:b")) (js_options (with_httpOnly false)) []
  = Normal (VBoolean false).
Proof.
  apply (no_scheme_never_absolute lower_identity upper_identity
           lower_identity_ok (lit "//example.com/a:b")
           (with_httpOnly false) []).
  - apply reachable_init.
  - right. intros l rest E. injection E as <- _. reflexivity.
Defined.

Lemma reachable_cache_invariant_witness :
  NoDup (map fst
           (run_calls lower_identity upper_identity
              [(VString (lit "ftp://a"),
                VObject (VString (lit "false"))
                  (Normal (lit "[object Object]")));
               (VString (lit "ftp://a"), VObject (VNumber (lit "0"))
                  (Normal (lit "[object Object]")))] []))
  /\ (forall k b,
        In (k, b)
          (run_calls lower_identity upper_identity
             [(VString (lit "ftp://a"),
               VObject (VString (lit "false"))
                 (Normal (lit "[object Object]")));
              (VString (lit "ftp://a"), VObject (VNumber (lit "0"))
                 (Normal (lit "[object Object]")))] []) ->
        exists s options,
          isAbsoluteUrl lower_identity upper_identity (VString s) options []
          = (Normal (VBoolean b), [(k, b)])).
Proof.
  destruct (reachable_cache_invariant lower_identity upper_identity
              (run_calls lower_identity upper_identity
                 [(VString (lit "ftp://a"),
                   VObject (VString (lit "false"))
                     (Normal (lit "[object Object]")));
                  (VString (lit "ftp://a"), VObject (VNumber (lit "0"))
                     (Normal (lit "[object Object]")))] []))
    as [Hkeys [Hentries _]].
  - apply run_calls_reachable, reachable_init.
  - split; assumption.
Defined.

Lemma read_does_not_protect_from_eviction_witness :
  call_cache lower_identity upper_identity (VString [0]) (js_options None)
    (run_calls lower_identity upper_identity
       (string_calls (distinct_urls 0 1000)) [])
  = run_calls lower_identity upper_identity
      (string_calls (distinct_urls 0 1000)) []
  /\ Map_has (call_key ([0], None))
       (run_calls lower_identity upper_identity
          [(VString [0], js_options None); (VString [2000], js_options None)]
          (run_calls lower_identity upper_identity
             (string_calls (distinct_urls 0 1000)) []))
     = false.
Proof.
  apply (read_does_not_protect_from_eviction lower_identity upper_identity
           [0] [2000] None None).
  - vm_compute. reflexivity.
  - vm_compute. reflexivity.
  - apply N.leb_le. vm_compute. reflexivity.
  - vm_compute. reflexivity.
Defined.

Lemma distinct_calls_leave_latest_witness :
  run_calls lower_identity upper_identity
    (string_calls [(lit "a:", None); (lit "b:", with_httpOnly false)]) []
  = map (fun c => entry_of lower_identity upper_identity (fst c) (snd c))
      (skipn (2 - N.to_nat CACHE_MAX_SIZE)
         [(lit "a:", None); (lit "b:", with_httpOnly false)])
  /\ Map_size
       (run_calls lower_identity upper_identity
          (string_calls [(lit "a:", None); (lit "b:", with_httpOnly false)])
          [])
     = N.min 2 CACHE_MAX_SIZE.
Proof.
  apply (distinct_calls_leave_latest lower_identity upper_identity
           [(lit "a:", None); (lit "b:", with_httpOnly false)]).
  apply distinct_keys_NoDup. reflexivity.
Defined.

Lemma absolute_closed_under_extension_witness :
  call_result lower_identity upper_identity
    (VString (lit "c:/" ++ lit "windows")) (js_options (with_httpOnly false)) []
  = Normal (VBoolean true).
Proof.
  apply (absolute_closed_under_extension lower_identity upper_identity
           lower_identity_ok (lit "c:/") (lit "windows")
           (with_httpOnly false) []).
  - apply documented_init.
  - simpl. lia.
  - reflexivity.
Defined.

Lemma classification_ignores_case_witness :
  call_result lower_identity upper_identity
    (VString (lit "HTTPS://Example.COM")) (js_options None) []
  = call_result lower_identity upper_identity
      (VString (lit "https://example.com")) (js_options None) [].
Proof.
  apply (classification_ignores_case lower_identity upper_identity
           lower_identity_ok).
  - apply documented_init.
  - reflexivity.
Defined.

Lemma call_touches_own_and_oldest_witness :
  Map_get (lit "b:|true")
    (call_cache lower_identity upper_identity (VString (lit "c:")) VUndefined
       [(lit "a:|true", false); (lit "b:|true", false)])
  = Map_get (lit "b:|true")
      [(lit "a:|true", false); (lit "b:|true", false)].
Proof.
  apply (call_touches_own_and_oldest lower_identity upper_identity
           (VString (lit "c:")) VUndefined).
  - intros s text h E R. injection E as <-. injection R as <- _.
    discriminate.
  - discriminate.
Defined.

Lemma non_ascii_scheme_never_absolute_witness :
  call_result lower_identity upper_identity
    (VString [104; 116; 116; 1088; 58; 47; 47; 97]) (js_options None) []
  = Normal (VBoolean false).
Proof.
  apply (non_ascii_scheme_never_absolute lower_identity upper_identity
           lower_identity_ok [104; 116; 116; 1088; 58; 47; 47; 97] 1088
           None []).
  - apply reachable_init.
  - simpl. tauto.
  - lia.
Defined.

Lemma hasCommonHttpProtocol_needs_five_witness :
  (5 <=? js_length (lit "HTTP:")) = true.
Proof.
  apply (hasCommonHttpProtocol_needs_five lower_identity lower_identity_ok
           (lit "HTTP:")).
  reflexivity.
Defined.

Lemma text_false_poisons_policy_false_witness :
  call_result lower_identity upper_identity
    (VString (lit "ftp://a")) (js_options (with_httpOnly false))
    (call_cache lower_identity upper_identity
       (VString (lit "ftp://a")) (object_with (VString (lit "false"))) [])
  = Normal (VBoolean false)
  /\ call_result lower_identity upper_identity
       (VString (lit "ftp://a")) (js_options (with_httpOnly false)) []
     = Normal (VBoolean true).
Proof.
  apply (text_false_poisons_policy_false lower_identity upper_identity
           lower_identity_ok (lit "ftp://a") []).
  reflexivity.
Defined.
